(** * Newton controller, intensive-quantity cache and residual assembly

    A shallow embedding of three pieces of the simulator:

    - [Newton]: the reference Newton controller ([NewtonControllerBase] and
      [NewtonController]): constructor, [newtonBegin], [newtonProceed],
      [newtonConverged], [newtonEndStep], [newtonFail] and
      [suggestTimeStepSize];
    - [Cache]: the intensive-quantity cache kept by [FvBaseDiscretization]
      (two parallel arrays of [historySize] vectors);
    - [Assembly]: [FvBaseDiscretization::globalResidual].

    Conventions.  A C++ [int] is a [Z]; signed overflow is undefined in the
    source and is outside the model.  A [Scalar] is an exact rational [Q]:
    rounding is not modelled, and a division whose divisor is zero (an IEEE
    infinity or NaN in the source) yields [None].  Only the final square
    root of the residual norm lives in [R]. *)

From Stdlib Require Import ZArith QArith Qabs Qreals Reals Lia Lra Lqa.
From stdpp Require Import base option list.

(** ** Scalars *)

(** [a < b] on scalars, as a boolean. *)
Definition Qltb (a b : Q) : bool := negb (Qle_bool b a).

(** [std::min(a, b)]: [(b < a) ? b : a]. *)
Definition std_min (a b : Q) : Q := if Qltb b a then b else a.

(** [std::max(a, b)]: [(a < b) ? b : a]. *)
Definition std_max (a b : Q) : Q := if Qltb a b then b else a.

(** [a / b] on scalars; [None] when the divisor is zero. *)
Definition scalar_div (a b : Q) : option Q :=
  if Qeq_bool b 0 then None else Some (a / b)%Q.

(** ** The Newton controller *)

Module Newton.

Local Open Scope Z_scope.

(** The data members of [NewtonControllerBase].  [_method] is a pointer to
    the Newton method; the one value the controller reads through it,
    [deflectionTwoNorm()], is passed to the functions that read it. *)
Record NewtonControllerBase : Type := mkController {
  _tolerance : Q;
  _maxPhysicalness : Q;
  _curPhysicalness : Q;
  _oneByMagnitude : Q;
  _probationCount : Z;
  _targetSteps : Z;
  _maxSteps : Z;
  _numSteps : Z
}.

Definition set_curPhysicalness (c : NewtonControllerBase) (p : Q) :=
  mkController (_tolerance c) (_maxPhysicalness c) p (_oneByMagnitude c)
    (_probationCount c) (_targetSteps c) (_maxSteps c) (_numSteps c).

Definition set_maxPhysicalness (c : NewtonControllerBase) (p : Q) :=
  mkController (_tolerance c) p (_curPhysicalness c) (_oneByMagnitude c)
    (_probationCount c) (_targetSteps c) (_maxSteps c) (_numSteps c).

Definition set_probationCount (c : NewtonControllerBase) (n : Z) :=
  mkController (_tolerance c) (_maxPhysicalness c) (_curPhysicalness c)
    (_oneByMagnitude c) n (_targetSteps c) (_maxSteps c) (_numSteps c).

Definition set_numSteps (c : NewtonControllerBase) (n : Z) :=
  mkController (_tolerance c) (_maxPhysicalness c) (_curPhysicalness c)
    (_oneByMagnitude c) (_probationCount c) (_targetSteps c) (_maxSteps c) n.

(** The constructor.  [assert(maxSteps > targetSteps + 3)] is modelled as a
    failure ([None]).  The constructor leaves [_probationCount] and
    [_oneByMagnitude] without a value ([newtonBegin] gives them one); the
    model puts zero there. *)
Definition newNewtonControllerBase (tolerance : Q) (targetSteps maxSteps : Z)
  : option NewtonControllerBase :=
  if maxSteps >? targetSteps + 3 then
    Some {| _numSteps := 0;
            _tolerance := tolerance;
            _targetSteps := targetSteps;
            _maxSteps := maxSteps;
            _curPhysicalness := 0;
            _maxPhysicalness := 0;
            _probationCount := 0;
            _oneByMagnitude := 0 |}
  else None.

(** [NewtonController(tolerance = 1e-5, targetSteps = 8, maxSteps = 12)]
    forwards to the base class. *)
Definition default_tolerance : Q := 1 # 100000.
Definition default_targetSteps : Z := 8.
Definition default_maxSteps : Z := 12.

Definition newNewtonController (tolerance : Q) (targetSteps maxSteps : Z) :=
  newNewtonControllerBase tolerance targetSteps maxSteps.

Definition defaultNewtonController : option NewtonControllerBase :=
  newNewtonController default_tolerance default_targetSteps default_maxSteps.

(** [newtonConverged]; [deflection] is [_method->deflectionTwoNorm()]. *)
Definition newtonConverged (c : NewtonControllerBase) (deflection : Q) : bool :=
  Qle_bool (deflection * _oneByMagnitude c) (_tolerance c)
  && Qle_bool 1 (_curPhysicalness c).

(** [newtonProceed]; [physicalness_u] is what [_asImp()._physicalness(u)]
    returns.  The result is the returned flag and the controller after the
    call. *)
Definition newtonProceed (c : NewtonControllerBase) (deflection physicalness_u : Q)
  : option (bool * NewtonControllerBase) :=
  if _numSteps c <? 2 then Some (true, c)
  else if _numSteps c >? _maxSteps c then Some (false, c)
  else if newtonConverged c deflection then Some (false, c)
  else
    let c := set_curPhysicalness c physicalness_u in
    let c := set_curPhysicalness c (std_min (_curPhysicalness c) 1) in
    if Qle_bool (_curPhysicalness c) 0 then Some (false, c)
    else
      bound ← scalar_div (inject_Z (_numSteps c)) (inject_Z (_maxSteps c - 1));
      if Qltb (_curPhysicalness c) bound then Some (false, c)
      else if Qltb (_curPhysicalness c) (_maxPhysicalness c) then
        if _probationCount c >? 1 then Some (false, c)
        else Some (true, set_probationCount c (_probationCount c + 1))
      else
        let c := set_maxPhysicalness c (_curPhysicalness c) in
        let c := set_probationCount c (Z.min 0 (_probationCount c - 1)) in
        Some (true, c).

(** [newtonBegin]; [u_two_norm] is the two-norm of [u]. *)
Definition newtonBegin (c : NewtonControllerBase) (u_two_norm : Q)
  : NewtonControllerBase :=
  {| _numSteps := 0;
     _probationCount := 0;
     _maxPhysicalness := 0;
     _curPhysicalness := 0;
     _oneByMagnitude := (1 / std_max u_two_norm (1 # 100000))%Q;
     _tolerance := _tolerance c;
     _targetSteps := _targetSteps c;
     _maxSteps := _maxSteps c |}.

(** [newtonEndStep] (the printing left out). *)
Definition newtonEndStep (c : NewtonControllerBase) (physicalness_u : Q)
  : NewtonControllerBase :=
  set_curPhysicalness (set_numSteps c (_numSteps c + 1)) physicalness_u.

(** [newtonFail]. *)
Definition newtonFail (c : NewtonControllerBase) : NewtonControllerBase :=
  set_numSteps c (_targetSteps c * 2).

(** [suggestTimeStepSize]. *)
Definition suggestTimeStepSize (c : NewtonControllerBase) (oldTimeStep : Q)
  : option Q :=
  if _numSteps c >? _targetSteps c then
    percent ← scalar_div (inject_Z (_numSteps c) - inject_Z (_targetSteps c))
                         (inject_Z (_targetSteps c));
    scalar_div oldTimeStep (1 + percent)
  else
    percent ← scalar_div (inject_Z (_targetSteps c) - inject_Z (_numSteps c))
                         (inject_Z (_targetSteps c));
    Some (oldTimeStep * (1 + percent / (12 # 10)))%Q.

End Newton.

(** ** The intensive-quantity cache of [FvBaseDiscretization] *)

Module Cache.

(** The properties and run-time parameters that the class reads from its
    [TypeTag]: [TimeDiscHistorySize] (2 unless a model overrides it) and the
    two boolean parameters. *)
Record Properties : Type := mkProperties {
  TimeDiscHistorySize : nat;
  EnableIntensiveQuantityCache : bool;
  EnableThermodynamicHints : bool
}.

Section FvBaseDiscretization.

(** [IntensiveQuantities] is the cached payload. *)
Context {IntensiveQuantities : Type}.
Variable TypeTag : Properties.

Definition historySize : nat := TimeDiscHistorySize TypeTag.

(** The two data members: [historySize] vectors of payloads and
    [historySize] vectors of validity flags.  An index is in range when it is
    below the length; indexing out of range is undefined in the source, and
    the model then reads nothing (a flag reads as [false]) and writes
    nothing. *)
Record FvBaseDiscretization : Type := mkModel {
  intensiveQuantityCache_ : list (list IntensiveQuantities);
  intensiveQuantityCacheUpToDate_ : list (list bool)
}.

(** Both arrays have [historySize] slots, and a slot has as many flags as
    payloads. *)
Definition wellFormed (m : FvBaseDiscretization) : Prop :=
  length (intensiveQuantityCache_ m) = historySize /\
  length (intensiveQuantityCacheUpToDate_ m) = historySize /\
  forall timeIdx,
    length (default [] (intensiveQuantityCache_ m !! timeIdx)) =
    length (default [] (intensiveQuantityCacheUpToDate_ m !! timeIdx)).

Definition enableIntensiveQuantitiesCache_ : bool :=
  EnableIntensiveQuantityCache TypeTag.

Definition enableThermodynamicHints_ : bool :=
  EnableThermodynamicHints TypeTag.

Definition storeIntensiveQuantities_ : bool :=
  enableIntensiveQuantitiesCache_ || enableThermodynamicHints_.

(** [intensiveQuantityCacheUpToDate_[timeIdx][globalIdx]]. *)
Definition upToDate (m : FvBaseDiscretization) (timeIdx globalIdx : nat) : bool :=
  default false (intensiveQuantityCacheUpToDate_ m !! timeIdx ≫= (.!! globalIdx)).

(** [&intensiveQuantityCache_[timeIdx][globalIdx]]. *)
Definition entry (m : FvBaseDiscretization) (timeIdx globalIdx : nat)
  : option IntensiveQuantities :=
  intensiveQuantityCache_ m !! timeIdx ≫= (.!! globalIdx).

(** The slot [timeIdx] has an entry for [globalIdx], in both arrays. *)
Definition inRange (m : FvBaseDiscretization) (timeIdx globalIdx : nat) : Prop :=
  is_Some (entry m timeIdx globalIdx) /\
  is_Some (intensiveQuantityCacheUpToDate_ m !! timeIdx ≫= (.!! globalIdx)).

(** The loop of [thermodynamicHint] over [timeIdx2]. *)
Fixpoint firstUpToDate (m : FvBaseDiscretization) (globalIdx : nat)
    (slots : list nat) : option IntensiveQuantities :=
  match slots with
  | [] => None
  | timeIdx2 :: slots =>
      if upToDate m timeIdx2 globalIdx then entry m timeIdx2 globalIdx
      else firstUpToDate m globalIdx slots
  end.

(** [thermodynamicHint]; the null pointer is [None]. *)
Definition thermodynamicHint (m : FvBaseDiscretization) (globalIdx timeIdx : nat)
  : option IntensiveQuantities :=
  if negb enableThermodynamicHints_ then None
  else if upToDate m timeIdx globalIdx then entry m timeIdx globalIdx
  else firstUpToDate m globalIdx (seq 0 historySize).

(** [cachedIntensiveQuantities]; the null pointer is [None]. *)
Definition cachedIntensiveQuantities (m : FvBaseDiscretization)
    (globalIdx timeIdx : nat) : option IntensiveQuantities :=
  if negb enableIntensiveQuantitiesCache_ || negb (upToDate m timeIdx globalIdx)
  then None
  else entry m timeIdx globalIdx.

(** [updateCachedIntensiveQuantities]. *)
Definition updateCachedIntensiveQuantities (m : FvBaseDiscretization)
    (intQuants : IntensiveQuantities) (globalIdx timeIdx : nat)
  : FvBaseDiscretization :=
  if negb storeIntensiveQuantities_ then m
  else
    {| intensiveQuantityCache_ :=
         alter (<[globalIdx := intQuants]>) timeIdx (intensiveQuantityCache_ m);
       intensiveQuantityCacheUpToDate_ :=
         alter (<[globalIdx := true]>) timeIdx (intensiveQuantityCacheUpToDate_ m) |}.

(** [setIntensiveQuantitiesCacheEntryValidity]. *)
Definition setIntensiveQuantitiesCacheEntryValidity (m : FvBaseDiscretization)
    (globalIdx timeIdx : nat) (newValue : bool) : FvBaseDiscretization :=
  if negb storeIntensiveQuantities_ then m
  else
    {| intensiveQuantityCache_ := intensiveQuantityCache_ m;
       intensiveQuantityCacheUpToDate_ :=
         alter (<[globalIdx := newValue]>) timeIdx (intensiveQuantityCacheUpToDate_ m) |}.

(** [std::fill(v.begin(), v.end(), false)]. *)
Definition fill_false (v : list bool) : list bool := replicate (length v) false.

(** One round of the loop of [shiftIntensiveQuantityCache]: slot
    [timeIdx + numSlots] receives the present content of slot [timeIdx]. *)
Definition shiftSlot (numSlots : nat) (m : FvBaseDiscretization) (timeIdx : nat)
  : FvBaseDiscretization :=
  {| intensiveQuantityCache_ :=
       <[timeIdx + numSlots := default [] (intensiveQuantityCache_ m !! timeIdx)]>
         (intensiveQuantityCache_ m);
     intensiveQuantityCacheUpToDate_ :=
       <[timeIdx + numSlots := default [] (intensiveQuantityCacheUpToDate_ m !! timeIdx)]>
         (intensiveQuantityCacheUpToDate_ m) |}.

(** [shiftIntensiveQuantityCache]; the loop runs [timeIdx] upwards from 0
    while [timeIdx < historySize - numSlots]. *)
Definition shiftIntensiveQuantityCache (m : FvBaseDiscretization) (numSlots : nat)
  : FvBaseDiscretization :=
  if negb storeIntensiveQuantities_ then m
  else
    let m := fold_left (shiftSlot numSlots) (seq 0 (historySize - numSlots)) m in
    {| intensiveQuantityCache_ := intensiveQuantityCache_ m;
       intensiveQuantityCacheUpToDate_ :=
         alter fill_false 0 (intensiveQuantityCacheUpToDate_ m) |}.

(** One round of the loop of [resizeAndResetIntensiveQuantitiesCache_];
    [fresh] is a default-constructed payload. *)
Definition resizeSlot (fresh : IntensiveQuantities) (nDofs : nat)
    (m : FvBaseDiscretization) (timeIdx : nat) : FvBaseDiscretization :=
  {| intensiveQuantityCache_ :=
       alter (resize nDofs fresh) timeIdx (intensiveQuantityCache_ m);
     intensiveQuantityCacheUpToDate_ :=
       alter (fun v => fill_false (resize nDofs false v)) timeIdx
         (intensiveQuantityCacheUpToDate_ m) |}.

(** [resizeAndResetIntensiveQuantitiesCache_]; [numGridDof] is what
    [asImp_().numGridDof()] returns. *)
Definition resizeAndResetIntensiveQuantitiesCache_ (fresh : IntensiveQuantities)
    (numGridDof : nat) (m : FvBaseDiscretization) : FvBaseDiscretization :=
  if storeIntensiveQuantities_ then
    let nDofs := numGridDof in
    fold_left (resizeSlot fresh nDofs) (seq 0 historySize) m
  else m.

End FvBaseDiscretization.

Arguments FvBaseDiscretization : clear implicits.

End Cache.

(** ** [FvBaseDiscretization::globalResidual] *)

Module Assembly.

(** [Dune::PartitionType]. *)
Inductive PartitionType : Type :=
  | InteriorEntity
  | BorderEntity
  | OverlapEntity
  | FrontEntity
  | GhostEntity.

Definition isInteriorEntity (p : PartitionType) : bool :=
  match p with InteriorEntity => true | _ => false end.

(** One scalar per equation; one [EqVector] per degree of freedom. *)
Abbreviation EqVector := (list Q).
Abbreviation GlobalEqVector := (list EqVector).
Abbreviation LocalBlockVector := (list EqVector).

Section GlobalResidual.

(** What the grid, the element context and the local residual provide:
    the partition type of an element, its number of primary degrees of
    freedom, the global index of each of them, and the residual that
    [localResidual(threadId).eval] writes for the element. *)
Context {Element : Type}.
Variable partitionType : Element -> PartitionType.
Variable numPrimaryDof : Element -> nat.
Variable globalSpaceIndex : Element -> nat -> nat.
Variable eval : Element -> LocalBlockVector.
Variable numEq : nat.

(** [dest = 0]: every scalar becomes zero, the shape stays. *)
Definition zero (dest : GlobalEqVector) : GlobalEqVector :=
  map (map (fun _ => 0%Q)) dest.

(** [Toolbox::value(residual[dofIdx][eqIdx])]. *)
Definition localValue (residual : LocalBlockVector) (dofIdx eqIdx : nat) : Q :=
  default 0%Q (residual !! dofIdx ≫= (.!! eqIdx)).

(** [dest[globalI][eqIdx] += Toolbox::value(residual[dofIdx][eqIdx])]. *)
Definition addEq (e : Element) (residual : LocalBlockVector) (dofIdx : nat)
    (dest : GlobalEqVector) (eqIdx : nat) : GlobalEqVector :=
  let globalI := globalSpaceIndex e dofIdx in
  alter (alter (fun x => x + localValue residual dofIdx eqIdx)%Q eqIdx) globalI dest.

(** The loop over [eqIdx]. *)
Definition addDof (e : Element) (residual : LocalBlockVector)
    (dest : GlobalEqVector) (dofIdx : nat) : GlobalEqVector :=
  fold_left (addEq e residual dofIdx) (seq 0 numEq) dest.

(** The body of the element loop: an element that is not interior is
    skipped; the others are evaluated and merged under the lock. *)
Definition addElement (dest : GlobalEqVector) (elem : Element) : GlobalEqVector :=
  if negb (isInteriorEntity (partitionType elem)) then dest
  else
    let residual := eval elem in
    fold_left (addDof elem residual) (seq 0 (numPrimaryDof elem)) dest.

(** The first part of [globalResidual(dest)], up to the end of the element
    loop.  [elements] lists the elements of the grid view in the order in
    which their merges happen. *)
Definition assembleResidual (elements : list Element) (dest : GlobalEqVector)
  : GlobalEqVector :=
  fold_left addElement elements (zero dest).

(** [dest[globalI][eqIdx]], when both indices are in range. *)
Definition valueAt (dest : GlobalEqVector) (globalI eqIdx : nat) : option Q :=
  dest !! globalI ≫= (.!! eqIdx).

(** What the element [elem] contributes to equation [eqIdx] of the degree of
    freedom [globalI]: the local residuals of those of its primary degrees
    of freedom that have this global index, in the order of the loop. *)
Definition dofContributions (elem : Element) (globalI eqIdx : nat) : list Q :=
  flat_map
    (fun dofIdx =>
       if Nat.eqb (globalSpaceIndex elem dofIdx) globalI
       then [localValue (eval elem) dofIdx eqIdx] else [])
    (seq 0 (numPrimaryDof elem)).

(** The contributions of the interior elements among [elements]. *)
Definition ownedContributions (elements : list Element) (globalI eqIdx : nat)
  : list Q :=
  flat_map
    (fun elem =>
       if isInteriorEntity (partitionType elem)
       then dofContributions elem globalI eqIdx else [])
    elements.

(** [dest.two_norm2()]. *)
Definition two_norm2 (dest : GlobalEqVector) : Q :=
  fold_left (fun s v => fold_left (fun s x => s + x * x)%Q v s) dest 0%Q.

(** A process of the run: the elements of its grid view, its [dofMapper]
    (from its own index of a degree of freedom to an index that is the same
    on every process) and the vector it passes as [dest]. *)
Record Process : Type := mkProcess {
  elements : list Element;
  dofMapper : nat -> nat;
  dest : GlobalEqVector
}.

Definition addEqVector (a b : EqVector) : EqVector := zip_with Qplus a b.

(** The values that the vector [v] of a process with mapper [mapper] holds
    for the degree of freedom [key], added to [acc]; [i] is the index of the
    head of [v]. *)
Fixpoint gather (mapper : nat -> nat) (key : nat) (i : nat)
    (v : GlobalEqVector) (acc : EqVector) : EqVector :=
  match v with
  | [] => acc
  | x :: v =>
      gather mapper key (S i) v
        (if Nat.eqb (mapper i) key then addEqVector acc x else acc)
  end.

(** Modelled from the spec: the exchange
    [gridView_.communicate] of the [GridCommHandleFactory::sumHandle] over
    [InteriorBorder_InteriorBorder_Interface]; neither
    the handle nor the grid's communication is among the sources.  The spec:
    global values are reduced across domain-decomposition boundaries by
    summing the contributions for any degree of freedom that is shared
    between partitions.  Here every process ends with, for each of its
    degrees of freedom, the sum of what all processes hold for it. *)
Definition communicateSum (vs : list (Process * GlobalEqVector))
  : list GlobalEqVector :=
  map (fun pv : Process * GlobalEqVector =>
         imap (fun i (_ : EqVector) =>
                 fold_left
                   (fun acc (qw : Process * GlobalEqVector) =>
                      gather (dofMapper (fst qw)) (dofMapper (fst pv) i) 0 (snd qw) acc)
                   vs (replicate numEq 0%Q))
              (snd pv))
      vs.

(** [gridView().comm().sum(result2)]. *)
Definition comm_sum (xs : list Q) : Q := fold_left Qplus xs 0%Q.

(** The square of what [globalResidual(dest)] returns, for a run on the
    processes [ps]. *)
Definition globalResidual2 (ps : list Process) : Q :=
  let assembled :=
    map (fun p => (p, assembleResidual (elements p) (dest p))) ps in
  let reduced := communicateSum assembled in
  comm_sum (map two_norm2 reduced).

(** [globalResidual(dest)]: every process returns [std::sqrt(result2)]. *)
Definition globalResidual (ps : list Process) : R :=
  sqrt (Q2R (globalResidual2 ps)).

End GlobalResidual.

End Assembly.

(** ** Concrete controllers, caches and meshes

    The inputs at which the properties below are evaluated. *)

Module Scenario.

Import Newton.

Local Open Scope Z_scope.

(** What [NewtonController()] builds with its default arguments. *)
Definition defaultController : NewtonControllerBase :=
  {| _tolerance := default_tolerance;
     _maxPhysicalness := 0;
     _curPhysicalness := 0;
     _oneByMagnitude := 0;
     _probationCount := 0;
     _targetSteps := default_targetSteps;
     _maxSteps := default_maxSteps;
     _numSteps := 0 |}.

(** The default controller after [newtonBegin] on an initial solution of
    norm 1 and three Newton steps, each ending in a fully physical
    solution. *)
Definition afterThreeSteps : NewtonControllerBase :=
  newtonEndStep (newtonEndStep (newtonEndStep (newtonBegin defaultController 1) 1) 1) 1.

(** A controller with [maxSteps = 12] whose fifth step just ended with
    physicalness 0.5, the most physical solution so far having had 0.9, and
    nothing on probation yet. *)
Definition regressionAtStep5 : NewtonControllerBase :=
  {| _tolerance := default_tolerance;
     _maxPhysicalness := 9 # 10;
     _curPhysicalness := 1 # 2;
     _oneByMagnitude := 1;
     _probationCount := 0;
     _targetSteps := default_targetSteps;
     _maxSteps := default_maxSteps;
     _numSteps := 5 |}.

(** The controller of [regressionAtStep5] after [newtonProceed] let it
    continue on probation and a sixth step ended with physicalness 0.6. *)
Definition regressionAtStep6 : NewtonControllerBase :=
  newtonEndStep (set_probationCount regressionAtStep5 1) (6 # 10).

(** The same after a seventh step that ended with physicalness 0.7, with two
    solutions on probation. *)
Definition regressionAtStep7 : NewtonControllerBase :=
  newtonEndStep (set_probationCount regressionAtStep6 2) (7 # 10).

(** The default controller after [newtonBegin] on an initial solution of
    norm 1. *)
Definition begun : NewtonControllerBase := newtonBegin defaultController 1.

(** A run of the Newton loop as far as the controller sees it: each step
    ends with [newtonEndStep] on a solution of the listed physicalness and is
    followed by [newtonProceed]; the run ends with the first [false], or when
    the list is exhausted. *)
Fixpoint runSteps (c : NewtonControllerBase) (deflection : Q)
    (physicalness : list Q) : option (bool * NewtonControllerBase) :=
  match physicalness with
  | [] => Some (true, c)
  | p :: physicalness =>
      match newtonProceed (newtonEndStep c p) deflection p with
      | Some (true, c') => runSteps c' deflection physicalness
      | r => r
      end
  end.

(** The default controller after [newtonFail()], and after eight steps. *)
Definition failedDefault : NewtonControllerBase := newtonFail begun.

Definition afterEightSteps : NewtonControllerBase := set_numSteps begun 8.

(** What [NewtonController(1e-5, -1, 3)] builds, and the same after
    [newtonFail()]. *)
Definition negativeTargetController : NewtonControllerBase :=
  {| _tolerance := default_tolerance;
     _maxPhysicalness := 0;
     _curPhysicalness := 0;
     _oneByMagnitude := 0;
     _probationCount := 0;
     _targetSteps := -1;
     _maxSteps := 3;
     _numSteps := 0 |}.

Definition failedWithNegativeTarget : NewtonControllerBase :=
  newtonFail negativeTargetController.

(** Caching and hints both enabled, and hints alone, with the default
    history of two slots. *)
Definition cachingAndHints : Cache.Properties := Cache.mkProperties 2 true true.
Definition hintsOnly : Cache.Properties := Cache.mkProperties 2 false true.
Definition neitherSwitch : Cache.Properties := Cache.mkProperties 2 false false.

(** A cache of six degrees of freedom whose payloads are numbers: slot 0 is
    stale, slot 1 is up to date. *)
Definition sixDofs : Cache.FvBaseDiscretization nat :=
  Cache.mkModel [replicate 6 0%nat; [10; 11; 12; 13; 14; 15]%nat]
                [replicate 6 false; replicate 6 true].

(** An element of a small mesh: its partition type, the global indices of
    its primary degrees of freedom and the residual that the local residual
    evaluates for it. *)
Record MeshElement : Type := mkElement {
  elemPartition : Assembly.PartitionType;
  elemDofs : list nat;
  elemResidual : Assembly.LocalBlockVector
}.

Definition meshNumPrimaryDof (e : MeshElement) : nat := length (elemDofs e).

Definition meshGlobalSpaceIndex (e : MeshElement) (dofIdx : nat) : nat :=
  default 0%nat (elemDofs e !! dofIdx).

(** A line of two elements and three vertices, one equation per vertex.  The
    left element contributes 4 and 12 to its vertices, the right one 8 and
    5; the middle vertex is shared. *)
Definition leftElement : MeshElement :=
  mkElement Assembly.InteriorEntity [0; 1]%nat [[4%Q]; [12%Q]].

Definition rightElement : MeshElement :=
  mkElement Assembly.InteriorEntity [1; 2]%nat [[8%Q]; [5%Q]].

(** The same right element as the second process numbers it: its vertices
    are 0 and 1 there, and the mapper of that process adds one. *)
Definition rightElementLocal : MeshElement :=
  mkElement Assembly.InteriorEntity [0; 1]%nat [[8%Q]; [5%Q]].

(** A ghost copy of the right element on the first process. *)
Definition rightElementGhost : MeshElement :=
  mkElement Assembly.GhostEntity [1; 2]%nat [[8%Q]; [5%Q]].

(** The whole line on one process. *)
Definition singlePartition : list (@Assembly.Process MeshElement) :=
  [Assembly.mkProcess [leftElement; rightElement] (fun i => i)
     [[0%Q]; [0%Q]; [0%Q]]].

(** The line split between two processes, the middle vertex on the border
    of both. *)
Definition twoPartitions : list (@Assembly.Process MeshElement) :=
  [Assembly.mkProcess [leftElement] (fun i => i) [[0%Q]; [0%Q]];
   Assembly.mkProcess [rightElementLocal] (fun i => S i) [[0%Q]; [0%Q]]].

(** [globalResidual] on the small meshes. *)
Definition meshGlobalResidual (ps : list (@Assembly.Process MeshElement)) : R :=
  Assembly.globalResidual elemPartition meshNumPrimaryDof meshGlobalSpaceIndex
    elemResidual 1 ps.

Definition meshAssembleResidual (elements : list MeshElement)
    (dest : Assembly.GlobalEqVector) : Assembly.GlobalEqVector :=
  Assembly.assembleResidual elemPartition meshNumPrimaryDof meshGlobalSpaceIndex
    elemResidual 1 elements dest.

End Scenario.

(** ** More of the Newton controller *)

Module NewtonReference.

Import Newton.

Local Open Scope Z_scope.

(** [_physicalness] as the base class has it, and [NewtonController] with
    it: every solution counts as fully physical. *)
Definition _physicalness : Q := 1.

(** What the controller keeps between its calls: at most two solutions on
    probation, and a best physicalness between 0 and 1. *)
Definition probationInvariant (c : NewtonControllerBase) : Prop :=
  _probationCount c <= 2
  /\ (0 <= _maxPhysicalness c)%Q /\ (_maxPhysicalness c <= 1)%Q.

End NewtonReference.

(** ** Time levels of [FvBaseDiscretization] *)

Module TimeLevels.

Import Cache.

Section Discretization.

(** [Linearizer] is the global linearizer, of which only
    [relinearizeAll()] is called here.  The build is the one without
    dune-fem, in which [adaptGrid()] has an empty body. *)
Context {IntensiveQuantities PrimaryVariables Linearizer : Type}.
Variable TypeTag : Properties.
Variable relinearizeAll : Linearizer -> Linearizer.

(** The cache, the solutions of the [historySize] time levels and the
    linearizer. *)
Record Discretization : Type := mkDiscretization {
  cacheOf : FvBaseDiscretization IntensiveQuantities;
  solution_ : list (list PrimaryVariables);
  linearizer_ : Linearizer
}.

(** [solution(timeIdx)]. *)
Definition solution (d : Discretization) (timeIdx : nat) : list PrimaryVariables :=
  default [] (solution_ d !! timeIdx).

(** [updateFailed]. *)
Definition updateFailed (d : Discretization) : Discretization :=
  let c := cacheOf d in
  {| cacheOf :=
       {| intensiveQuantityCache_ :=
            <[0 := default [] (intensiveQuantityCache_ c !! 1)]>
              (intensiveQuantityCache_ c);
          intensiveQuantityCacheUpToDate_ :=
            <[0 := default [] (intensiveQuantityCacheUpToDate_ c !! 1)]>
              (intensiveQuantityCacheUpToDate_ c) |};
     solution_ := <[0 := solution d 1]> (solution_ d);
     linearizer_ := relinearizeAll (linearizer_ d) |}.

(** [advanceTimeLevel]. *)
Definition advanceTimeLevel (d : Discretization) : Discretization :=
  {| cacheOf := shiftIntensiveQuantityCache TypeTag (cacheOf d) 1;
     solution_ := <[1 := solution d 0]> (solution_ d);
     linearizer_ := linearizer_ d |}.

(** The last part of [finishInit]: every flag of every slot is cleared if
    the cache is stored at all. *)
Definition invalidateSlot (c : FvBaseDiscretization IntensiveQuantities)
    (timeIdx : nat) : FvBaseDiscretization IntensiveQuantities :=
  {| intensiveQuantityCache_ := intensiveQuantityCache_ c;
     intensiveQuantityCacheUpToDate_ :=
       alter fill_false timeIdx (intensiveQuantityCacheUpToDate_ c) |}.

Definition finishInitCache (c : FvBaseDiscretization IntensiveQuantities)
  : FvBaseDiscretization IntensiveQuantities :=
  if storeIntensiveQuantities_ TypeTag then
    fold_left invalidateSlot (seq 0 (historySize TypeTag)) c
  else c.

End Discretization.

End TimeLevels.

(** ** Volumes and boundary of the grid *)

Module Geometry.

Import Assembly.

Section Grid.

(** What the grid and the stencil provide for an element: its partition
    type, its primary degrees of freedom and their global indices, the
    volume of each of its sub-control volumes and its number of boundary
    faces.  Indexing a vector out of range is undefined in the source, and
    the model then writes nothing. *)
Context {Element : Type}.
Variable partitionType : Element -> PartitionType.
Variable numPrimaryDof : Element -> nat.
Variable globalSpaceIndex : Element -> nat -> nat.
Variable subControlVolume : Element -> nat -> Q.
Variable numBoundaryFaces : Element -> nat.

(** The three data members that [finishInit] computes. *)
Record Volumes : Type := mkVolumes {
  dofTotalVolume_ : list Q;
  gridTotalVolume_ : Q;
  isLocalDof_ : list bool
}.

(** The body of the loop over the sub-control volumes of an element;
    [v] is [dofTotalVolume_] with [gridTotalVolume_]. *)
Definition addDofVolume (elem : Element) (isInteriorElement : bool)
    (v : list Q * Q) (dofIdx : nat) : list Q * Q :=
  let globalIdx := globalSpaceIndex elem dofIdx in
  let dofVolume := subControlVolume elem dofIdx in
  (alter (fun x => x + dofVolume)%Q globalIdx (fst v),
   if isInteriorElement then (snd v + dofVolume)%Q else snd v).

(** The body of the loop over the elements. *)
Definition addElementVolume (v : list Q * Q) (elem : Element) : list Q * Q :=
  let isInteriorElement := isInteriorEntity (partitionType elem) in
  if negb isInteriorElement then v
  else fold_left (addDofVolume elem isInteriorElement)
         (seq 0 (numPrimaryDof elem)) v.

(** The loop that sets [isLocalDof_]. *)
Definition markLocalDof (dofTotalVolume : list Q) (isLocalDof : list bool)
    (dofIdx : nat) : list bool :=
  <[dofIdx := negb (Qeq_bool (default 0%Q (dofTotalVolume !! dofIdx)) 0)]> isLocalDof.

(** The first part of [finishInit], up to the exchange of the volumes with
    the peer processes: [nDofs] is what [numGridDof()] returns, [old] is
    what the three members held before. *)
Definition finishInitVolumes (nDofs : nat) (elements : list Element)
    (old : Volumes) : Volumes :=
  let zeroed := map (fun _ => 0%Q) (resize nDofs 0%Q (dofTotalVolume_ old)) in
  let v := fold_left addElementVolume elements (zeroed, 0%Q) in
  {| dofTotalVolume_ := fst v;
     gridTotalVolume_ := snd v;
     isLocalDof_ :=
       fold_left (markLocalDof (fst v)) (seq 0 nDofs)
         (resize nDofs false (isLocalDof_ old)) |}.

(** The degrees of freedom of the interior elements are degrees of freedom
    of the grid. *)
Definition indicesInRange (nDofs : nat) (elements : list Element) : Prop :=
  forall (elem : Element) (dofIdx : nat),
    List.In elem elements ->
    isInteriorEntity (partitionType elem) = true ->
    dofIdx < numPrimaryDof elem ->
    globalSpaceIndex elem dofIdx < nDofs.

(** The inner loop of [updateBoundary_]. *)
Definition markBoundaryDof (elem : Element) (onBoundary : list bool)
    (dofIdx : nat) : list bool :=
  let globalIdx := globalSpaceIndex elem dofIdx in
  <[globalIdx := true]> onBoundary.

(** The body of its loop over the elements. *)
Definition markBoundaryElement (onBoundary : list bool) (elem : Element)
  : list bool :=
  if Nat.eqb (numBoundaryFaces elem) 0 then onBoundary
  else fold_left (markBoundaryDof elem) (seq 0 (numPrimaryDof elem)) onBoundary.

(** [updateBoundary_]; [old] is what [onBoundary_] held before. *)
Definition updateBoundary_ (numGridDof : nat) (elements : list Element)
    (old : list bool) : list bool :=
  fold_left markBoundaryElement elements
    (map (fun _ => false) (resize numGridDof false old)).

End Grid.

End Geometry.

(** ** Weights and relative errors *)

Module Errors.

(** [primaryVarWeight] of [FvBaseDiscretization]; [previous] is
    [solution(1)]. *)
Definition primaryVarWeight (previous : list (list Q)) (globalDofIdx pvIdx : nat)
  : Q :=
  let absPv := Qabs (default 0%Q (previous !! globalDofIdx ≫= (.!! pvIdx))) in
  (1 / std_max absPv 1)%Q.

(** [eqWeight]. *)
Definition eqWeight (globalVertexIdx eqIdx : nat) : Q := 1.

(** The weighted difference of primary variable [j]: [eqErr] in the loop of
    [relativeDofError]. *)
Definition weightedDifference (previous : list (list Q)) (vertexIdx : nat)
    (pv1 pv2 : list Q) (j : nat) : Q :=
  Qabs ((default 0 (pv1 !! j) - default 0 (pv2 !! j))
        * primaryVarWeight previous vertexIdx j)%Q.

(** The body of the loop of [relativeDofError]. *)
Definition relativeDofErrorStep (previous : list (list Q)) (vertexIdx : nat)
    (pv1 pv2 : list Q) (result : Q) (j : nat) : Q :=
  let weight := primaryVarWeight previous vertexIdx j in
  let eqErr :=
    Qabs ((default 0 (pv1 !! j) - default 0 (pv2 !! j)) * weight)%Q in
  std_max result eqErr.

(** [relativeDofError]. *)
Definition relativeDofError (previous : list (list Q)) (numEq : nat)
    (vertexIdx : nat) (pv1 pv2 : list Q) : Q :=
  fold_left (relativeDofErrorStep previous vertexIdx pv1 pv2) (seq 0 numEq) 0%Q.

End Errors.

(** ** [FvBaseDiscretization::globalStorage] *)

Module Storage.

Import Assembly.

Section GlobalStorage.

(** [evalStorage timeIdx elem] is what [localResidual(threadId).evalStorage]
    writes into [elemStorage] for the element. *)
Context {Element : Type}.
Variable partitionType : Element -> PartitionType.
Variable numPrimaryDof : nat -> Element -> nat.
Variable evalStorage : nat -> Element -> LocalBlockVector.
Variable numEq : nat.

(** [storage[eqIdx] += Toolbox::value(elemStorage[dofIdx][eqIdx])]. *)
Definition addStorageEq (elemStorage : LocalBlockVector) (dofIdx : nat)
    (storage : EqVector) (eqIdx : nat) : EqVector :=
  alter (fun x => x + localValue elemStorage dofIdx eqIdx)%Q eqIdx storage.

(** The loop over [eqIdx]. *)
Definition addStorageDof (elemStorage : LocalBlockVector) (storage : EqVector)
    (dofIdx : nat) : EqVector :=
  fold_left (addStorageEq elemStorage dofIdx) (seq 0 numEq) storage.

(** The body of the element loop. *)
Definition addStorageElement (timeIdx : nat) (storage : EqVector)
    (elem : Element) : EqVector :=
  if negb (isInteriorEntity (partitionType elem)) then storage
  else
    let numPrimaryDof := numPrimaryDof timeIdx elem in
    let elemStorage := evalStorage timeIdx elem in
    fold_left (addStorageDof elemStorage) (seq 0 numPrimaryDof) storage.

(** [globalStorage(storage, timeIdx)] on one process, up to the end of the
    element loop. *)
Definition localStorage (timeIdx : nat) (elements : list Element)
    (storage : EqVector) : EqVector :=
  fold_left (addStorageElement timeIdx) elements (map (fun _ => 0%Q) storage).

(** [gridView_.comm().sum(storage)]: the vectors of all processes, added
    entry by entry. *)
Definition comm_sum_vector (vs : list EqVector) : EqVector :=
  match vs with
  | [] => []
  | v :: vs => fold_left addEqVector vs v
  end.

(** [globalStorage(storage, timeIdx)] for a run on several processes, each
    with the elements of its grid view and the vector it passes. *)
Definition globalStorage (timeIdx : nat) (ps : list (list Element * EqVector))
  : EqVector :=
  comm_sum_vector (map (fun p => localStorage timeIdx (fst p) (snd p)) ps).

(** What the interior elements among [elements] store for equation
    [eqIdx], in the order of the loops. *)
Definition storageContributions (timeIdx : nat) (elements : list Element)
    (eqIdx : nat) : list Q :=
  flat_map
    (fun elem =>
       map (fun dofIdx => localValue (evalStorage timeIdx elem) dofIdx eqIdx)
           (seq 0 (numPrimaryDof timeIdx elem)))
    (List.filter (fun elem => isInteriorEntity (partitionType elem)) elements).

End GlobalStorage.

End Storage.

(** ** Further concrete inputs *)

Module Examples.

Import Scenario.

(** A cache of six degrees of freedom with both slots up to date. *)
Definition bothUpToDate : Cache.FvBaseDiscretization nat :=
  Cache.mkModel [[20; 21; 22; 23; 24; 25]%nat; [10; 11; 12; 13; 14; 15]%nat]
                [replicate 6 true; replicate 6 true].

(** A discretization at the end of an accepted time step: one scalar
    primary variable per degree of freedom, and a linearizer that counts how
    often it was asked to relinearize. *)
Definition accepted : @TimeLevels.Discretization nat Q nat :=
  TimeLevels.mkDiscretization bothUpToDate
    [[1; 2; 3; 4; 5; 6]%Q; [0; 0; 0; 0; 0; 0]%Q] 0%nat.

(** The same after [advanceTimeLevel] and a Newton iteration of the next
    time step that changed the solution and the cache at time index 0. *)
Definition iterating : @TimeLevels.Discretization nat Q nat :=
  let d := TimeLevels.advanceTimeLevel cachingAndHints accepted in
  TimeLevels.mkDiscretization
    (Cache.updateCachedIntensiveQuantities cachingAndHints
       (TimeLevels.cacheOf d) 42%nat 3 0)
    (<[0%nat := [9; 9; 9; 9; 9; 9]%Q]> (TimeLevels.solution_ d))
    (TimeLevels.linearizer_ d).

(** A ghost copy of the left element of the line. *)
Definition leftElementGhost : MeshElement :=
  mkElement Assembly.GhostEntity [0; 1]%nat [[4%Q]; [12%Q]].

(** On the line every sub-control volume has the volume 1/2. *)
Definition meshSubControlVolume (e : MeshElement) (dofIdx : nat) : Q := 1 # 2.

(** The line taken as the left end of a longer grid: an element has a
    boundary face when vertex 0 is among its vertices. *)
Definition meshNumBoundaryFaces (e : MeshElement) : nat :=
  if existsb (Nat.eqb 0) (elemDofs e) then 1%nat else 0%nat.

Definition meshFinishInitVolumes (nDofs : nat) (elements : list MeshElement)
    (old : Geometry.Volumes) : Geometry.Volumes :=
  Geometry.finishInitVolumes elemPartition meshNumPrimaryDof meshGlobalSpaceIndex
    meshSubControlVolume nDofs elements old.

Definition meshUpdateBoundary_ (numGridDof : nat) (elements : list MeshElement)
    (old : list bool) : list bool :=
  Geometry.updateBoundary_ meshNumPrimaryDof meshGlobalSpaceIndex
    meshNumBoundaryFaces numGridDof elements old.

(** The storage term of an element of the line is taken to be its
    residual, at every time index. *)
Definition meshLocalStorage (elements : list MeshElement)
    (storage : Assembly.EqVector) : Assembly.EqVector :=
  Storage.localStorage elemPartition (fun _ => meshNumPrimaryDof)
    (fun _ => elemResidual) 1 0 elements storage.

Definition meshGlobalStorage
    (ps : list (list MeshElement * Assembly.EqVector)) : Assembly.EqVector :=
  Storage.globalStorage elemPartition (fun _ => meshNumPrimaryDof)
    (fun _ => elemResidual) 1 0 ps.

End Examples.

(** * Properties *)

(** ** Scalars *)

Lemma Qltb_lt (a b : Q) : Qltb a b = true <-> (a < b)%Q.
Proof.
  unfold Qltb. rewrite negb_true_iff. split.
  - intros H. apply Qnot_le_lt. intros Hle.
    apply Qle_bool_iff in Hle. congruence.
  - intros H. destruct (Qle_bool b a) eqn:E; [|reflexivity].
    apply Qle_bool_iff in E. exfalso. exact (Qlt_not_le _ _ H E).
Qed.

Lemma Qltb_ge (a b : Q) : Qltb a b = false <-> (b <= a)%Q.
Proof.
  unfold Qltb. rewrite negb_false_iff. apply Qle_bool_iff.
Qed.

Lemma scalar_div_nonzero (a b : Q) :
  ~ (b == 0)%Q -> scalar_div a b = Some (a / b)%Q.
Proof.
  intros Hb. unfold scalar_div.
  destruct (Qeq_bool b 0) eqn:E; [|reflexivity].
  apply Qeq_bool_iff in E. contradiction.
Qed.

Lemma inject_Z_nonzero (z : Z) : (z <> 0)%Z -> ~ (inject_Z z == 0)%Q.
Proof.
  intros Hz H. unfold Qeq in H. simpl in H. lia.
Qed.

Lemma inject_Z_pos (z : Z) : (0 < z)%Z -> (0 < inject_Z z)%Q.
Proof.
  intros Hz. change 0%Q with (inject_Z 0). rewrite <- Zlt_Qlt. exact Hz.
Qed.

(** ** The Newton controller *)

Module NewtonProperties.

Import Newton Scenario.

Local Open Scope Z_scope.

(** The default arguments pass the assertion of the constructor. *)
Lemma defaultNewtonController_eq :
  defaultNewtonController = Some defaultController.
Proof. reflexivity. Qed.



(** C5.  [newtonConverged] returns true if and only if the defect times the
    normalisation is at most the tolerance and the current physicalness is
    at least 1; so with a current physicalness below 1 it returns false, and
    [newtonProceed] cannot stop through its converged branch. *)
Theorem newtonConverged_iff (c : NewtonControllerBase) (deflection : Q) :
  (newtonConverged c deflection = true
   <-> (deflection * _oneByMagnitude c <= _tolerance c)%Q
       /\ (1 <= _curPhysicalness c)%Q)
  /\ ((_curPhysicalness c < 1)%Q -> newtonConverged c deflection = false).
Proof.
  unfold newtonConverged. split.
  - rewrite andb_true_iff, !Qle_bool_iff. reflexivity.
  - intros Hlt. apply andb_false_iff. right.
    destruct (Qle_bool 1 (_curPhysicalness c)) eqn:E; [|reflexivity].
    apply Qle_bool_iff in E. exfalso. exact (Qlt_not_le _ _ Hlt E).
Qed.

(** The theorem at the controller of [regressionAtStep5], whose physicalness
    is 0.5: a defect far below the tolerance does not make it converged. *)
Lemma newtonConverged_iff_unphysical :
  (_curPhysicalness regressionAtStep5 < 1)%Q
  /\ newtonConverged regressionAtStep5 0 = false.
Proof.
  split; [reflexivity|].
  apply (proj2 (newtonConverged_iff regressionAtStep5 0)). reflexivity.
Defined.

(** In the run of [afterThreeSteps], a defect of 1e-6 (relative to an initial
    norm of 1) makes [newtonProceed] stop as converged with three steps
    done. *)
Example newtonProceed_stops_after_three_steps :
  _numSteps afterThreeSteps = 3
  /\ newtonConverged afterThreeSteps (1 # 1000000) = true
  /\ newtonProceed afterThreeSteps (1 # 1000000) 1 = Some (false, afterThreeSteps).
Proof. repeat split. Qed.

(** C2, as the code has it.  With [targetSteps = 8], a controller that
    stopped after 3 steps suggests, for an old step size of 100, exactly
    [100 * (1 + (8 - 3) / 8 / 1.2) = 1825/12], which lies between 152 and
    153. *)
Theorem suggestTimeStepSize_default_step3 (c : NewtonControllerBase) :
  _targetSteps c = 8 ->
  _numSteps c = 3 ->
  exists r : Q,
    suggestTimeStepSize c 100 = Some r
    /\ (r == 100 * (1 + (8 - 3) / 8 / (12 # 10)))%Q
    /\ (r == 1825 # 12)%Q
    /\ (152 < r)%Q /\ (r < 153)%Q.
Proof.
  intros Ht Hn. unfold suggestTimeStepSize. rewrite Ht, Hn. simpl.
  eexists. split; [reflexivity|]. repeat split.
Qed.

(** The theorem at the default controller that stopped after three steps. *)
Lemma suggestTimeStepSize_default_step3_run :
  _targetSteps afterThreeSteps = 8
  /\ _numSteps afterThreeSteps = 3
  /\ exists r : Q,
       suggestTimeStepSize afterThreeSteps 100 = Some r
       /\ (r == 100 * (1 + (8 - 3) / 8 / (12 # 10)))%Q
       /\ (r == 1825 # 12)%Q
       /\ (152 < r)%Q /\ (r < 153)%Q.
Proof.
  split; [reflexivity|]. split; [reflexivity|].
  apply (suggestTimeStepSize_default_step3 afterThreeSteps); reflexivity.
Defined.

(** C2, as stated, fails: for the default controller that stopped after
    three steps, [suggestTimeStepSize(100)] is more than 11 away from 141. *)
Lemma suggestTimeStepSize_default_step3_not_141 :
  exists r : Q,
    suggestTimeStepSize afterThreeSteps 100 = Some r
    /\ ~ (Qabs (r - 141) <= 11)%Q.
Proof.
  eexists. split; [reflexivity|]. intros H. vm_compute in H. apply H. reflexivity.
Qed.

(** C6, as the code has it.  With a positive target step count and a
    positive old step size: fewer steps than the target give a strictly
    larger step size, more steps give a strictly smaller one, and exactly
    the target gives the old step size back. *)
Theorem suggestTimeStepSize_monotone
    (c : NewtonControllerBase) (oldTimeStep : Q) :
  0 < _targetSteps c ->
  (0 < oldTimeStep)%Q ->
  (_numSteps c < _targetSteps c ->
     exists r : Q, suggestTimeStepSize c oldTimeStep = Some r
                   /\ (oldTimeStep < r)%Q)
  /\ (_numSteps c > _targetSteps c ->
     exists r : Q, suggestTimeStepSize c oldTimeStep = Some r
                   /\ (r < oldTimeStep)%Q)
  /\ (_numSteps c = _targetSteps c ->
     exists r : Q, suggestTimeStepSize c oldTimeStep = Some r
                   /\ (r == oldTimeStep)%Q).
Proof.
  intros Ht Hold. unfold suggestTimeStepSize.
  pose proof (inject_Z_pos _ Ht) as Htq.
  assert (Hnz : ~ (inject_Z (_targetSteps c) == 0)%Q)
    by (apply inject_Z_nonzero; lia).
  destruct (Z.gtb_spec (_numSteps c) (_targetSteps c)) as [Hgt | Hle].
  - (* the shrinking branch *)
    rewrite (scalar_div_nonzero _ _ Hnz). cbn [mbind option_bind].
    remember ((inject_Z (_numSteps c) - inject_Z (_targetSteps c))
              / inject_Z (_targetSteps c))%Q as percent eqn:Epercent.
    assert (Hp : (0 < percent)%Q).
    { subst percent. apply Qlt_shift_div_l; [exact Htq|].
      rewrite Zlt_Qlt in Hgt. lra. }
    clear Epercent.
    assert (Hd : ~ (1 + percent == 0)%Q) by (intros Hz; lra).
    rewrite (scalar_div_nonzero _ _ Hd).
    repeat split; intros Hcmp; try lia.
    eexists. split; [reflexivity|].
    apply Qlt_shift_div_r; [lra | nra].
  - (* the growing branch *)
    rewrite (scalar_div_nonzero _ _ Hnz). cbn [mbind option_bind].
    remember ((inject_Z (_targetSteps c) - inject_Z (_numSteps c))
              / inject_Z (_targetSteps c))%Q as percent eqn:Epercent.
    repeat split; intros Hcmp; try lia.
    + assert (Hp : (0 < percent)%Q).
      { subst percent. apply Qlt_shift_div_l; [exact Htq|].
        rewrite Zlt_Qlt in Hcmp. lra. }
      clear Epercent.
      assert (Hq : (0 < percent / (12 # 10))%Q).
      { apply Qlt_shift_div_l; [reflexivity | lra]. }
      eexists. split; [reflexivity|].
      remember (percent / (12 # 10))%Q as growth. nra.
    + assert (Hp : (percent == 0)%Q).
      { subst percent. rewrite Hcmp. field. exact Hnz. }
      eexists. split; [reflexivity|]. rewrite Hp. field.
Qed.

(** The theorem at the default controller that stopped after three steps:
    3 is below the target of 8, so the step size grows. *)
Lemma suggestTimeStepSize_monotone_default :
  (0 < _targetSteps afterThreeSteps
   /\ (0 < 100)%Q
   /\ _numSteps afterThreeSteps < _targetSteps afterThreeSteps
   /\ exists r : Q,
        suggestTimeStepSize afterThreeSteps 100 = Some r /\ (100 < r)%Q)
  /\ (_numSteps failedDefault > _targetSteps failedDefault
      /\ exists r : Q,
           suggestTimeStepSize failedDefault 100 = Some r /\ (r < 100)%Q)
  /\ (_numSteps afterEightSteps = _targetSteps afterEightSteps
      /\ exists r : Q,
           suggestTimeStepSize afterEightSteps 100 = Some r /\ (r == 100)%Q).
Proof.
  split; [|split].
  - split; [reflexivity|]. split; [reflexivity|]. split; [reflexivity|].
    apply (suggestTimeStepSize_monotone afterThreeSteps 100); reflexivity.
  - split; [reflexivity|].
    apply (suggestTimeStepSize_monotone failedDefault 100); reflexivity.
  - split; [reflexivity|].
    apply (suggestTimeStepSize_monotone afterEightSteps 100); reflexivity.
Defined.

(** C6, as stated, fails without a positive target: the controller built
    by [NewtonController(1e-5, -1, 3)] passes the assertion of the
    constructor, [newtonFail] leaves it with [-2] steps, below the target
    [-1], and yet the suggested step size for 100 is 100/6, which is
    smaller. *)
Lemma suggestTimeStepSize_negative_target_shrinks :
  newNewtonController default_tolerance (-1) 3 = Some negativeTargetController
  /\ _numSteps failedWithNegativeTarget < _targetSteps failedWithNegativeTarget
  /\ (0 < 100)%Q
  /\ exists r : Q,
       suggestTimeStepSize failedWithNegativeTarget 100 = Some r
       /\ (r == 100 # 6)%Q
       /\ ~ (100 < r)%Q.
Proof.
  split; [reflexivity|].
  split; [reflexivity|]. split; [reflexivity|].
  eexists. split; [reflexivity|]. split; [reflexivity|].
  intros H. vm_compute in H. discriminate H.
Qed.

(** C3, as the code has it.  Let [newtonProceed] reach its check against
    the most physical solution so far (at least two steps done, the step
    budget not exceeded, not converged, a positive physicalness that is at
    least [numSteps / (maxSteps - 1)]) with a physicalness below
    [_maxPhysicalness].  Then it stops and rejects if [_probationCount > 1],
    and otherwise increments [_probationCount] and continues.  With
    [maxSteps = 12], a drop from 0.9 to 0.5 on step 5 takes the count from 0
    to 1 and the loop continues; a physicalness of 0.6 after the next step,
    again below 0.9, takes the count to 2 and the loop still continues; only
    a further regression, met with a count of 2, stops the loop. *)
Theorem newtonProceed_regression
    (c : NewtonControllerBase) (deflection physicalness_u : Q) :
  2 <= _numSteps c <= _maxSteps c ->
  newtonConverged c deflection = false ->
  (0 < std_min physicalness_u 1)%Q ->
  (inject_Z (_numSteps c) / inject_Z (_maxSteps c - 1)
     <= std_min physicalness_u 1)%Q ->
  (std_min physicalness_u 1 < _maxPhysicalness c)%Q ->
  newtonProceed c deflection physicalness_u =
    Some (if _probationCount c >? 1
          then (false, set_curPhysicalness c (std_min physicalness_u 1))
          else (true,
                set_probationCount
                  (set_curPhysicalness c (std_min physicalness_u 1))
                  (_probationCount c + 1)))
  /\ newtonProceed regressionAtStep5 1 (1 # 2) =
       Some (true, set_probationCount regressionAtStep5 1)
  /\ newtonProceed regressionAtStep6 1 (6 # 10) =
       Some (true, set_probationCount regressionAtStep6 2)
  /\ newtonProceed regressionAtStep7 1 (7 # 10) =
       Some (false, regressionAtStep7).
Proof.
  intros [Hlo Hhi] Hconv Hpos Hbound Hregress.
  split; [|repeat split].
  unfold newtonProceed.
  destruct (Z.ltb_spec (_numSteps c) 2) as [Hlt | _]; [lia|].
  destruct (Z.gtb_spec (_numSteps c) (_maxSteps c)) as [Hgt | _]; [lia|].
  rewrite Hconv.
  cbn [_curPhysicalness _numSteps _maxSteps _maxPhysicalness _probationCount
       set_curPhysicalness].
  destruct (Qle_bool (std_min physicalness_u 1) 0) eqn:Ezero.
  { apply Qle_bool_iff in Ezero. exfalso. exact (Qlt_not_le _ _ Hpos Ezero). }
  rewrite scalar_div_nonzero by (apply inject_Z_nonzero; lia).
  cbn [mbind option_bind].
  apply Qltb_ge in Hbound. rewrite Hbound.
  apply Qltb_lt in Hregress. rewrite Hregress.
  destruct (_probationCount c >? 1); reflexivity.
Qed.

(** The theorem at the controller of [regressionAtStep5]: the count goes
    from 0 to 1 and the loop continues. *)
Lemma newtonProceed_regression_step5 :
  2 <= _numSteps regressionAtStep5 <= _maxSteps regressionAtStep5
  /\ newtonConverged regressionAtStep5 1 = false
  /\ (0 < std_min (1 # 2) 1)%Q
  /\ (inject_Z (_numSteps regressionAtStep5)
        / inject_Z (_maxSteps regressionAtStep5 - 1) <= std_min (1 # 2) 1)%Q
  /\ (std_min (1 # 2) 1 < _maxPhysicalness regressionAtStep5)%Q
  /\ _probationCount regressionAtStep5 = 0
  /\ newtonProceed regressionAtStep5 1 (1 # 2) =
       Some (true, set_probationCount regressionAtStep5 1).
Proof.
  assert (H1 : 2 <= _numSteps regressionAtStep5 <= _maxSteps regressionAtStep5)
    by (vm_compute; split; discriminate).
  assert (H4 : (inject_Z (_numSteps regressionAtStep5)
                  / inject_Z (_maxSteps regressionAtStep5 - 1)
                <= std_min (1 # 2) 1)%Q)
    by (vm_compute; discriminate).
  split; [exact H1|]. split; [reflexivity|]. split; [reflexivity|].
  split; [exact H4|]. split; [reflexivity|]. split; [reflexivity|].
  exact (proj1 (newtonProceed_regression regressionAtStep5 1 (1 # 2)
                  H1 eq_refl eq_refl H4 eq_refl)).
Defined.

(** C3, as stated, fails at its last step: after the first regression
    ([_probationCount = 1]) a sixth step ends with physicalness 0.6, again
    below the maximum 0.9; [newtonProceed] returns true (the loop continues)
    with [_probationCount = 2], it does not stop. *)
Lemma newtonProceed_second_regression_continues :
  _probationCount regressionAtStep6 = 1
  /\ (_curPhysicalness regressionAtStep6 < _maxPhysicalness regressionAtStep6)%Q
  /\ exists c' : NewtonControllerBase,
       newtonProceed regressionAtStep6 1 (6 # 10) = Some (true, c')
       /\ _probationCount c' = 2.
Proof.
  split; [reflexivity|]. split; [reflexivity|].
  eexists. split; reflexivity.
Qed.

(** Runs from [newtonBegin].  A step that is the most physical so far
    takes [_probationCount] to [min(0, count - 1)], so after 0.9 on steps 1
    to 4 a drop to 0.5 on step 5 raises the count from -3 to -2.  After 0.9,
    0.9 and 0.8, the count is 0; a drop to 0.5 raises it to 1, a following
    0.6 raises it to 2, both continuing, and a following 0.7 stops the
    run. *)
Example runSteps_probation :
  (exists c, runSteps begun 1 [9 # 10; 9 # 10; 9 # 10; 9 # 10; 1 # 2]%Q = Some (true, c)
             /\ _numSteps c = 5 /\ _probationCount c = -2)
  /\ (exists c, runSteps begun 1 [9 # 10; 9 # 10; 8 # 10; 1 # 2]%Q = Some (true, c)
                /\ _numSteps c = 4 /\ _probationCount c = 1)
  /\ (exists c, runSteps begun 1 [9 # 10; 9 # 10; 8 # 10; 1 # 2; 6 # 10]%Q
                  = Some (true, c)
                /\ _numSteps c = 5 /\ _probationCount c = 2)
  /\ (exists c, runSteps begun 1 [9 # 10; 9 # 10; 8 # 10; 1 # 2; 6 # 10; 7 # 10]%Q
                  = Some (false, c)
                /\ _numSteps c = 6 /\ _probationCount c = 2).
Proof.
  repeat split; eexists; (split; [reflexivity|]); split; reflexivity.
Qed.

(** With a target of zero and no step done the code divides zero by zero;
    the model has no value for the suggestion. *)
Example suggestTimeStepSize_zero_target :
  newNewtonController default_tolerance 0 4
    = Some (mkController default_tolerance 0 0 0 0 0 4 0)
  /\ suggestTimeStepSize (mkController default_tolerance 0 0 0 0 0 4 0) 100 = None.
Proof. split; reflexivity. Qed.

End NewtonProperties.

(** ** The intensive-quantity cache *)

Module CacheProperties.

Import Cache.

Section Properties.

Context {IntensiveQuantities : Type}.
Variable TypeTag : Properties.
Implicit Types m : FvBaseDiscretization IntensiveQuantities.

(** *** Reading after a write *)

Lemma lookup2_alter_insert_eq {A : Type} (l : list (list A)) (i j : nat) (x : A) :
  is_Some (l !! i ≫= (.!! j)) ->
  alter (<[j := x]>) i l !! i ≫= (.!! j) = Some x.
Proof.
  intros [y Hy]. rewrite list_lookup_alter_eq.
  destruct (l !! i) as [v|] eqn:Ev; [|discriminate]. simpl in *.
  apply list_lookup_insert_eq. eapply lookup_lt_Some. exact Hy.
Qed.

Lemma lookup2_alter_ne {A : Type} (f : list A -> list A) (l : list (list A))
    (i i' j : nat) :
  i <> i' -> alter f i l !! i' ≫= (.!! j) = l !! i' ≫= (.!! j).
Proof.
  intros Hne. rewrite list_lookup_alter_ne by exact Hne. reflexivity.
Qed.

Lemma lookup2_alter_is_Some {A : Type} (l : list (list A)) (i j : nat) (x : A) :
  is_Some (l !! i ≫= (.!! j)) ->
  is_Some (alter (<[j := x]>) i l !! i ≫= (.!! j)).
Proof.
  intros H. rewrite lookup2_alter_insert_eq by exact H. eexists; reflexivity.
Qed.

(** *** The loops over the history *)

Lemma fold_resizeSlot_upToDate (fresh : IntensiveQuantities) (n k : nat) :
  forall (a : nat) m (i : nat),
    intensiveQuantityCacheUpToDate_ (fold_left (resizeSlot fresh n) (seq a k) m) !! i =
    if decide (a <= i < a + k)
    then (fun v => fill_false (resize n false v))
           <$> (intensiveQuantityCacheUpToDate_ m !! i)
    else intensiveQuantityCacheUpToDate_ m !! i.
Proof.
  induction k as [|k IH]; intros a m i; simpl.
  - case_decide; [lia | reflexivity].
  - rewrite IH. simpl.
    destruct (decide (a = i)) as [->|Hne].
    + rewrite list_lookup_alter_eq.
      repeat case_decide; try lia. reflexivity.
    + rewrite list_lookup_alter_ne by exact Hne.
      repeat case_decide; try lia; reflexivity.
Qed.

Lemma fold_resizeSlot_cache (fresh : IntensiveQuantities) (n k : nat) :
  forall (a : nat) m (i : nat),
    intensiveQuantityCache_ (fold_left (resizeSlot fresh n) (seq a k) m) !! i =
    if decide (a <= i < a + k)
    then resize n fresh <$> (intensiveQuantityCache_ m !! i)
    else intensiveQuantityCache_ m !! i.
Proof.
  induction k as [|k IH]; intros a m i; simpl.
  - case_decide; [lia | reflexivity].
  - rewrite IH. simpl.
    destruct (decide (a = i)) as [->|Hne].
    + rewrite list_lookup_alter_eq.
      repeat case_decide; try lia. reflexivity.
    + rewrite list_lookup_alter_ne by exact Hne.
      repeat case_decide; try lia; reflexivity.
Qed.

Lemma fold_shiftSlot_length (numSlots : nat) (slots : list nat) :
  forall m,
    length (intensiveQuantityCache_ (fold_left (shiftSlot numSlots) slots m)) =
      length (intensiveQuantityCache_ m)
    /\ length (intensiveQuantityCacheUpToDate_ (fold_left (shiftSlot numSlots) slots m)) =
      length (intensiveQuantityCacheUpToDate_ m).
Proof.
  induction slots as [|timeIdx slots IH]; intros m; simpl; [split; reflexivity|].
  destruct (IH (shiftSlot numSlots m timeIdx)) as [Hc Hf].
  rewrite Hc, Hf. simpl. rewrite !length_insert. split; reflexivity.
Qed.

Lemma shiftIntensiveQuantityCache_length m (numSlots : nat) :
  length (intensiveQuantityCache_ (shiftIntensiveQuantityCache TypeTag m numSlots)) =
    length (intensiveQuantityCache_ m)
  /\ length (intensiveQuantityCacheUpToDate_ (shiftIntensiveQuantityCache TypeTag m numSlots)) =
    length (intensiveQuantityCacheUpToDate_ m).
Proof.
  unfold shiftIntensiveQuantityCache.
  destruct (negb (storeIntensiveQuantities_ TypeTag)); [split; reflexivity|].
  simpl. rewrite length_alter. apply fold_shiftSlot_length.
Qed.

(** With the default history of two slots, the shift copies slot 0 to
    slot 1 and marks slot 0 stale. *)
Lemma shiftIntensiveQuantityCache_two_slots
    (c0 c1 : list IntensiveQuantities) (f0 f1 : list bool) :
  historySize TypeTag = 2 ->
  storeIntensiveQuantities_ TypeTag = true ->
  shiftIntensiveQuantityCache TypeTag (mkModel [c0; c1] [f0; f1]) 1 =
    mkModel [c0; c0] [fill_false f0; f0].
Proof.
  intros Hh Hs. unfold shiftIntensiveQuantityCache. rewrite Hs, Hh. reflexivity.
Qed.

(** *** The claims *)

(** C4, as the code has it.  For every slot, degree of freedom and value in
    range, [updateCachedIntensiveQuantities] returns without touching the
    cache exactly when [storeIntensiveQuantities_()] is false, that is when
    both the caching switch and the hints switch are disabled; otherwise (one
    of the two switches enabled) the entry holds the value and is up to date
    afterwards, and the entries of the other slots are as before. *)
Theorem updateCachedIntensiveQuantities_stores m
    (intQuants : IntensiveQuantities) (globalIdx timeIdx : nat) :
  inRange m timeIdx globalIdx ->
  (storeIntensiveQuantities_ TypeTag = false
   <-> EnableIntensiveQuantityCache TypeTag = false
       /\ EnableThermodynamicHints TypeTag = false)
  /\ (storeIntensiveQuantities_ TypeTag = false ->
      updateCachedIntensiveQuantities TypeTag m intQuants globalIdx timeIdx = m)
  /\ (storeIntensiveQuantities_ TypeTag = true ->
      let m' := updateCachedIntensiveQuantities TypeTag m intQuants globalIdx timeIdx in
      entry m' timeIdx globalIdx = Some intQuants
      /\ upToDate m' timeIdx globalIdx = true
      /\ forall timeIdx' globalIdx' : nat,
           timeIdx' <> timeIdx ->
           entry m' timeIdx' globalIdx' = entry m timeIdx' globalIdx'
           /\ upToDate m' timeIdx' globalIdx' = upToDate m timeIdx' globalIdx').
Proof.
  intros [Hentry Hflag]. split; [|split].
  - unfold storeIntensiveQuantities_, enableIntensiveQuantitiesCache_,
      enableThermodynamicHints_. apply orb_false_iff.
  - intros Hs. unfold updateCachedIntensiveQuantities. rewrite Hs. reflexivity.
  - intros Hs. unfold updateCachedIntensiveQuantities. rewrite Hs. simpl.
    unfold entry, upToDate. simpl.
    rewrite !lookup2_alter_insert_eq by assumption.
    repeat split; intros;
      rewrite lookup2_alter_ne by congruence; reflexivity.
Qed.


(** C8.  With caching and hints enabled and a history of at least two slots,
    for every degree of freedom [globalIdx] of slot 0: after
    [updateCachedIntensiveQuantities(V, globalIdx, 0)],
    [cachedIntensiveQuantities(globalIdx, 0)] returns [V]; after a following
    [setIntensiveQuantitiesCacheEntryValidity(globalIdx, 0, false)] it
    misses, while [thermodynamicHint(globalIdx, 0)] returns the value that
    slot 1 stores for [globalIdx] whenever that entry is up to date. *)
Theorem update_invalidate_hint m (V : IntensiveQuantities) (globalIdx : nat) :
  EnableIntensiveQuantityCache TypeTag = true ->
  EnableThermodynamicHints TypeTag = true ->
  1 < historySize TypeTag ->
  inRange m 0 globalIdx ->
  let m1 := updateCachedIntensiveQuantities TypeTag m V globalIdx 0 in
  let m2 := setIntensiveQuantitiesCacheEntryValidity TypeTag m1 globalIdx 0 false in
  cachedIntensiveQuantities TypeTag m1 globalIdx 0 = Some V
  /\ cachedIntensiveQuantities TypeTag m2 globalIdx 0 = None
  /\ (upToDate m 1 globalIdx = true ->
      upToDate m2 1 globalIdx = true
      /\ thermodynamicHint TypeTag m2 globalIdx 0 = entry m 1 globalIdx).
Proof.
  intros Hcache Hhints Hh [Hentry Hflag] m1 m2.
  assert (Hs : storeIntensiveQuantities_ TypeTag = true).
  { unfold storeIntensiveQuantities_, enableIntensiveQuantitiesCache_.
    rewrite Hcache. reflexivity. }
  assert (H1 : upToDate m1 0 globalIdx = true
               /\ entry m1 0 globalIdx = Some V).
  { unfold m1, updateCachedIntensiveQuantities, upToDate, entry.
    rewrite Hs. simpl. rewrite !lookup2_alter_insert_eq by assumption.
    split; reflexivity. }
  assert (H2 : upToDate m2 0 globalIdx = false).
  { unfold m2, setIntensiveQuantitiesCacheEntryValidity, upToDate.
    rewrite Hs. simpl. rewrite lookup2_alter_insert_eq; [reflexivity|].
    unfold m1, updateCachedIntensiveQuantities. rewrite Hs. simpl.
    apply lookup2_alter_is_Some. exact Hflag. }
  destruct H1 as [H1f H1e].
  split; [|split].
  - unfold cachedIntensiveQuantities, enableIntensiveQuantitiesCache_.
    rewrite Hcache, H1f. exact H1e.
  - unfold cachedIntensiveQuantities. rewrite H2.
    simpl. rewrite orb_true_r. reflexivity.
  - intros Hvalid.
    assert (Hf : upToDate m2 1 globalIdx = true).
    { rewrite <- Hvalid.
      unfold m2, m1, setIntensiveQuantitiesCacheEntryValidity,
        updateCachedIntensiveQuantities, upToDate.
      rewrite Hs. simpl. rewrite !lookup2_alter_ne by lia. reflexivity. }
    assert (He : entry m2 1 globalIdx = entry m 1 globalIdx).
    { unfold m2, m1, setIntensiveQuantitiesCacheEntryValidity,
        updateCachedIntensiveQuantities, entry.
      rewrite Hs. simpl. rewrite lookup2_alter_ne by lia. reflexivity. }
    split; [exact Hf|].
    unfold thermodynamicHint, enableThermodynamicHints_.
    rewrite Hhints, H2. simpl.
    destruct (historySize TypeTag) as [|[|h]]; [lia | lia |].
    simpl. rewrite H2, Hf. exact He.
Qed.

End Properties.

Import Scenario.

(** The theorem of C4 with hints enabled and caching disabled: the value is
    stored all the same. *)
Lemma updateCachedIntensiveQuantities_stores_hintsOnly :
  inRange sixDofs 0 5
  /\ storeIntensiveQuantities_ hintsOnly = true
  /\ entry (updateCachedIntensiveQuantities hintsOnly sixDofs 42 5 0) 0 5 = Some 42
  /\ upToDate (updateCachedIntensiveQuantities hintsOnly sixDofs 42 5 0) 0 5 = true
  /\ storeIntensiveQuantities_ neitherSwitch = false
  /\ updateCachedIntensiveQuantities neitherSwitch sixDofs 42 5 0 = sixDofs.
Proof.
  assert (Hin : inRange sixDofs 0 5) by (split; eexists; reflexivity).
  split; [exact Hin|]. split; [reflexivity|].
  destruct (updateCachedIntensiveQuantities_stores hintsOnly sixDofs 42 5 0 Hin)
    as (_ & _ & Hstore).
  destruct (Hstore eq_refl) as (He & Hf & _).
  split; [exact He|]. split; [exact Hf|]. split; [reflexivity|].
  destruct (updateCachedIntensiveQuantities_stores neitherSwitch sixDofs 42 5 0 Hin)
    as (_ & Hnoop & _).
  exact (Hnoop eq_refl).
Defined.

(** C4, as stated, fails: with the caching switch disabled and hints
    enabled, [updateCachedIntensiveQuantities] is not a no-op; it changes
    the cache, and the stored value comes back as a hint. *)
Lemma updateCachedIntensiveQuantities_caching_disabled_not_noop :
  EnableIntensiveQuantityCache hintsOnly = false
  /\ updateCachedIntensiveQuantities hintsOnly sixDofs 42 5 0 <> sixDofs
  /\ thermodynamicHint hintsOnly
       (updateCachedIntensiveQuantities hintsOnly sixDofs 42 5 0) 5 0 = Some 42.
Proof.
  split; [reflexivity|]. split; [|reflexivity].
  intros H. apply (f_equal (fun m => upToDate m 0 5)) in H.
  vm_compute in H. discriminate H.
Qed.


(** The theorem of C8 on the six degrees of freedom: the hint for the
    degree of freedom 5 is the 15 of slot 1. *)
Lemma update_invalidate_hint_sixDofs :
  EnableIntensiveQuantityCache cachingAndHints = true
  /\ EnableThermodynamicHints cachingAndHints = true
  /\ 1 < historySize cachingAndHints
  /\ inRange sixDofs 0 5
  /\ upToDate sixDofs 1 5 = true
  /\ cachedIntensiveQuantities cachingAndHints
       (updateCachedIntensiveQuantities cachingAndHints sixDofs 42 5 0) 5 0 = Some 42
  /\ cachedIntensiveQuantities cachingAndHints
       (setIntensiveQuantitiesCacheEntryValidity cachingAndHints
          (updateCachedIntensiveQuantities cachingAndHints sixDofs 42 5 0) 5 0 false)
       5 0 = None
  /\ thermodynamicHint cachingAndHints
       (setIntensiveQuantitiesCacheEntryValidity cachingAndHints
          (updateCachedIntensiveQuantities cachingAndHints sixDofs 42 5 0) 5 0 false)
       5 0 = Some 15.
Proof.
  assert (Ht : 1 < historySize cachingAndHints) by (vm_compute; lia).
  assert (Hin : inRange sixDofs 0 5) by (split; eexists; reflexivity).
  split; [reflexivity|]. split; [reflexivity|]. split; [exact Ht|].
  split; [exact Hin|]. split; [reflexivity|].
  destruct (update_invalidate_hint cachingAndHints sixDofs 42 5
              eq_refl eq_refl Ht Hin) as (Hget & Hmiss & Hhint).
  split; [exact Hget|]. split; [exact Hmiss|].
  exact (proj2 (Hhint eq_refl)).
Defined.

End CacheProperties.

(** ** The residual assembly *)

Module AssemblyProperties.

Import Assembly.

Section Properties.

Context {Element : Type}.
Variable partitionType : Element -> PartitionType.
Variable numPrimaryDof : Element -> nat.
Variable globalSpaceIndex : Element -> nat -> nat.
Variable eval : Element -> LocalBlockVector.
Variable numEq : nat.

Local Abbreviation addEq := (addEq globalSpaceIndex).
Local Abbreviation addDof := (addDof globalSpaceIndex numEq).
Local Abbreviation addElement :=
  (addElement partitionType numPrimaryDof globalSpaceIndex eval numEq).
Local Abbreviation assembleResidual :=
  (assembleResidual partitionType numPrimaryDof globalSpaceIndex eval numEq).
Local Abbreviation dofContributions :=
  (dofContributions numPrimaryDof globalSpaceIndex eval).
Local Abbreviation ownedContributions :=
  (ownedContributions partitionType numPrimaryDof globalSpaceIndex eval).

(** *** One addition *)

Lemma valueAt_addEq (e : Element) (residual : LocalBlockVector)
    (dofIdx eqIdx : nat) (dest : GlobalEqVector) (globalI eq : nat) (x : Q) :
  valueAt dest globalI eq = Some x ->
  valueAt (addEq e residual dofIdx dest eqIdx) globalI eq =
    Some (if Nat.eqb (globalSpaceIndex e dofIdx) globalI && Nat.eqb eqIdx eq
          then (x + localValue residual dofIdx eqIdx)%Q else x).
Proof.
  unfold valueAt, Assembly.addEq. cbv zeta. intros Hx.
  destruct (Nat.eqb_spec (globalSpaceIndex e dofIdx) globalI) as [->|Hg]; simpl.
  - rewrite list_lookup_alter_eq.
    destruct (dest !! globalI) as [v|]; [|discriminate]. simpl in *.
    destruct (Nat.eqb_spec eqIdx eq) as [->|He].
    + rewrite list_lookup_alter_eq, Hx. reflexivity.
    + rewrite list_lookup_alter_ne by exact He. exact Hx.
  - rewrite list_lookup_alter_ne by exact Hg. exact Hx.
Qed.

(** *** The loop over the equations *)

Lemma valueAt_addEq_fold (e : Element) (residual : LocalBlockVector)
    (dofIdx globalI eq : nat) (k : nat) :
  forall (a : nat) (dest : GlobalEqVector) (x : Q),
    valueAt dest globalI eq = Some x ->
    valueAt (fold_left (addEq e residual dofIdx) (seq a k) dest) globalI eq =
      Some (if Nat.eqb (globalSpaceIndex e dofIdx) globalI
               && bool_decide (a <= eq < a + k)
            then (x + localValue residual dofIdx eq)%Q else x).
Proof.
  induction k as [|k IH]; intros a dest x Hx; simpl.
  - rewrite Hx. rewrite bool_decide_eq_false_2 by lia.
    rewrite andb_false_r. reflexivity.
  - rewrite (IH (S a) _ _ (valueAt_addEq e residual dofIdx a dest globalI eq x Hx)).
    destruct (Nat.eqb (globalSpaceIndex e dofIdx) globalI); simpl.
    + destruct (Nat.eqb_spec a eq) as [->|Hne].
      * rewrite bool_decide_eq_false_2 by lia.
        rewrite bool_decide_eq_true_2 by lia. reflexivity.
      * destruct (decide (S a <= eq < S a + k)) as [Hin|Hout].
        -- rewrite !bool_decide_eq_true_2 by lia. reflexivity.
        -- rewrite !bool_decide_eq_false_2 by lia. reflexivity.
    + reflexivity.
Qed.

Lemma valueAt_addDof (e : Element) (residual : LocalBlockVector)
    (dest : GlobalEqVector) (dofIdx globalI eq : nat) (x : Q) :
  eq < numEq ->
  valueAt dest globalI eq = Some x ->
  valueAt (addDof e residual dest dofIdx) globalI eq =
    Some (if Nat.eqb (globalSpaceIndex e dofIdx) globalI
          then (x + localValue residual dofIdx eq)%Q else x).
Proof.
  intros Heq Hx. unfold Assembly.addDof.
  rewrite (valueAt_addEq_fold e residual dofIdx globalI eq numEq 0 dest x Hx).
  rewrite bool_decide_eq_true_2 by lia. rewrite andb_true_r. reflexivity.
Qed.

(** *** The loop over the degrees of freedom of an element *)

Lemma valueAt_addDof_fold (e : Element) (residual : LocalBlockVector)
    (globalI eq : nat) (k : nat) :
  eq < numEq ->
  forall (a : nat) (dest : GlobalEqVector) (x : Q),
    valueAt dest globalI eq = Some x ->
    valueAt (fold_left (addDof e residual) (seq a k) dest) globalI eq =
      Some (fold_left Qplus
              (flat_map
                 (fun dofIdx =>
                    if Nat.eqb (globalSpaceIndex e dofIdx) globalI
                    then [localValue residual dofIdx eq] else [])
                 (seq a k))
              x).
Proof.
  intros Heq. induction k as [|k IH]; intros a dest x Hx; simpl.
  - exact Hx.
  - rewrite (IH (S a) _ _ (valueAt_addDof e residual dest a globalI eq x Heq Hx)).
    rewrite fold_left_app.
    destruct (Nat.eqb (globalSpaceIndex e a) globalI); reflexivity.
Qed.

Lemma valueAt_addElement (dest : GlobalEqVector) (e : Element)
    (globalI eq : nat) (x : Q) :
  eq < numEq ->
  valueAt dest globalI eq = Some x ->
  valueAt (addElement dest e) globalI eq =
    Some (fold_left Qplus
            (if isInteriorEntity (partitionType e)
             then dofContributions e globalI eq else [])
            x).
Proof.
  intros Heq Hx. unfold Assembly.addElement.
  destruct (isInteriorEntity (partitionType e)); simpl.
  - apply valueAt_addDof_fold; assumption.
  - exact Hx.
Qed.

(** *** The loop over the elements *)

Lemma valueAt_addElement_fold (elements : list Element) (globalI eq : nat) :
  eq < numEq ->
  forall (dest : GlobalEqVector) (x : Q),
    valueAt dest globalI eq = Some x ->
    valueAt (fold_left addElement elements dest) globalI eq =
      Some (fold_left Qplus (ownedContributions elements globalI eq) x).
Proof.
  intros Heq. induction elements as [|e elements IH]; intros dest x Hx; simpl.
  - exact Hx.
  - rewrite (IH _ _ (valueAt_addElement dest e globalI eq x Heq Hx)).
    rewrite fold_left_app. reflexivity.
Qed.

(** *** Zeroing *)

Lemma valueAt_zero (dest : GlobalEqVector) (globalI eq : nat) :
  is_Some (valueAt dest globalI eq) ->
  valueAt (zero dest) globalI eq = Some 0%Q.
Proof.
  unfold valueAt, zero. intros [x Hx]. rewrite list_lookup_fmap.
  destruct (dest !! globalI) as [v|]; [|discriminate]. simpl in *.
  rewrite list_lookup_fmap, Hx. reflexivity.
Qed.

Lemma zero_shape (dest : GlobalEqVector) :
  zero dest = map (fun n => replicate n 0%Q) (map length dest).
Proof.
  unfold zero. rewrite map_map. apply map_ext. intros v.
  induction v as [|x v IH]; simpl; [reflexivity | rewrite IH; reflexivity].
Qed.

(** *** The claim *)

(** C9.  The element loop of [globalResidual] starts from a zeroed [dest]
    and skips every element that is not interior.  So each entry of the
    assembled vector is the sum, in the order of the merges and starting from
    zero, of exactly the local residuals that the interior elements
    contribute to it; and two output vectors of the same shape give the same
    assembled vector, whatever they held before. *)
Theorem assembleResidual_owned (elements : list Element)
    (dest dest' : GlobalEqVector) (globalI eqIdx : nat) :
  eqIdx < numEq ->
  is_Some (valueAt dest globalI eqIdx) ->
  map length dest' = map length dest ->
  valueAt (assembleResidual elements dest) globalI eqIdx =
    Some (fold_left Qplus (ownedContributions elements globalI eqIdx) 0%Q)
  /\ assembleResidual elements dest' = assembleResidual elements dest.
Proof.
  intros Heq Hin Hshape. split.
  - unfold Assembly.assembleResidual.
    apply valueAt_addElement_fold; [exact Heq|].
    apply valueAt_zero. exact Hin.
  - unfold Assembly.assembleResidual.
    rewrite (zero_shape dest'), (zero_shape dest), Hshape. reflexivity.
Qed.

End Properties.

Import Scenario.

(** The theorem of C9 on the line mesh of one process that also sees a
    ghost copy of the right element: the middle vertex receives the 12 of
    the left element only, whatever [dest] held. *)
Lemma assembleResidual_owned_line :
  0 < 1
  /\ is_Some (valueAt [[7%Q]; [7%Q]; [7%Q]] 1 0)
  /\ map length [[0%Q]; [0%Q]; [0%Q]] = map length [[7%Q]; [7%Q]; [7%Q]]
  /\ valueAt (meshAssembleResidual [leftElement; rightElementGhost]
                [[7%Q]; [7%Q]; [7%Q]]) 1 0 = Some (0 + 12)%Q
  /\ meshAssembleResidual [leftElement; rightElementGhost] [[0%Q]; [0%Q]; [0%Q]]
     = meshAssembleResidual [leftElement; rightElementGhost] [[7%Q]; [7%Q]; [7%Q]].
Proof.
  assert (H1 : 0 < 1) by lia.
  assert (H2 : is_Some (valueAt [[7%Q]; [7%Q]; [7%Q]] 1 0))
    by (eexists; reflexivity).
  split; [exact H1|]. split; [exact H2|]. split; [reflexivity|].
  exact (assembleResidual_owned elemPartition meshNumPrimaryDof
           meshGlobalSpaceIndex elemResidual 1
           [leftElement; rightElementGhost]
           [[7%Q]; [7%Q]; [7%Q]] [[0%Q]; [0%Q]; [0%Q]] 1 0 H1 H2 eq_refl).
Defined.

(** *** The norm across processes *)

Lemma sqrt_Q2R_square (q : Q) (z : Z) :
  (0 <= z)%Z -> (q == inject_Z (z * z))%Q -> sqrt (Q2R q) = IZR z.
Proof.
  intros Hz Hq. rewrite (Qeq_eqR _ _ Hq).
  unfold Q2R, inject_Z. simpl. rewrite mult_IZR, Rinv_1, Rmult_1_r.
  apply sqrt_square. apply IZR_le. exact Hz.
Qed.

(** C1 on the line mesh.  On one process the residual of the line is
    (4, 20, 5) and [globalResidual] returns its Euclidean norm, 21.  Split
    between two processes, each of them holds the summed value 20 for the
    vertex on the border, both count its square, and [globalResidual]
    returns 29. *)
Theorem globalResidual_counts_border_per_process :
  meshAssembleResidual [leftElement; rightElement] [[0%Q]; [0%Q]; [0%Q]]
    = [[4%Q]; [20%Q]; [5%Q]]
  /\ meshGlobalResidual singlePartition = 21%R
  /\ meshGlobalResidual twoPartitions = 29%R
  /\ meshGlobalResidual twoPartitions <> meshGlobalResidual singlePartition.
Proof.
  assert (H1 : meshGlobalResidual singlePartition = 21%R).
  { apply (sqrt_Q2R_square _ 21); [lia | reflexivity]. }
  assert (H2 : meshGlobalResidual twoPartitions = 29%R).
  { apply (sqrt_Q2R_square _ 29); [lia | reflexivity]. }
  split; [reflexivity|]. split; [exact H1|]. split; [exact H2|].
  rewrite H1, H2. Lra.lra.
Qed.

End AssemblyProperties.

(** ** More on the Newton controller *)

Module NewtonMoreProperties.

Import Newton NewtonReference Scenario.

Local Open Scope Z_scope.

Lemma std_min_le_r (a b : Q) : (std_min a b <= b)%Q.
Proof.
  unfold std_min. destruct (Qltb b a) eqn:E.
  - apply Qle_refl.
  - apply Qltb_ge in E. exact E.
Qed.

Lemma std_max_ge_r (a b : Q) : (b <= std_max a b)%Q.
Proof.
  unfold std_max. destruct (Qltb a b) eqn:E.
  - apply Qle_refl.
  - apply Qltb_ge in E. exact E.
Qed.

Lemma std_max_ge_l (a b : Q) : (a <= std_max a b)%Q.
Proof.
  unfold std_max. destruct (Qltb a b) eqn:E.
  - apply Qltb_lt in E. apply Qlt_le_weak. exact E.
  - apply Qle_refl.
Qed.

(** X1.  [newtonBegin] resets the step count, the probation count and both
    physicalness values, and whatever the norm of the initial solution
    (zero and negative values included) the normalisation it computes is
    positive and at most 100000; for a norm of at least 1e-5 it is the
    inverse of the norm. *)
Theorem newtonBegin_normalisation (c : NewtonControllerBase) (u_two_norm : Q) :
  _numSteps (newtonBegin c u_two_norm) = 0
  /\ _probationCount (newtonBegin c u_two_norm) = 0
  /\ _maxPhysicalness (newtonBegin c u_two_norm) = 0%Q
  /\ _curPhysicalness (newtonBegin c u_two_norm) = 0%Q
  /\ (0 < _oneByMagnitude (newtonBegin c u_two_norm))%Q
  /\ (_oneByMagnitude (newtonBegin c u_two_norm) <= 100000)%Q
  /\ ((1 # 100000 <= u_two_norm)%Q ->
      (_oneByMagnitude (newtonBegin c u_two_norm) * u_two_norm == 1)%Q).
Proof.
  repeat split.
  - simpl. pose proof (std_max_ge_r u_two_norm (1 # 100000)) as H.
    apply Qlt_shift_div_l; lra.
  - simpl. pose proof (std_max_ge_r u_two_norm (1 # 100000)) as H.
    apply Qle_shift_div_r; lra.
  - intros Hn. simpl. unfold std_max.
    destruct (Qltb u_two_norm (1 # 100000)) eqn:E.
    + apply Qltb_lt in E. lra.
    + field. lra.
Qed.

(** The theorem at a norm of zero and at a norm of 4. *)
Lemma newtonBegin_normalisation_examples :
  (_oneByMagnitude (newtonBegin defaultController 0) <= 100000)%Q
  /\ (1 # 100000 <= 4)%Q
  /\ (_oneByMagnitude (newtonBegin defaultController 4) * 4 == 1)%Q.
Proof.
  split.
  - apply (newtonBegin_normalisation defaultController 0).
  - split; [discriminate|].
    apply (newtonBegin_normalisation defaultController 4). discriminate.
Defined.

(** X2.  Once at least two steps are done and the step count has reached
    [maxSteps], [newtonProceed] returns false whatever the defect and the
    physicalness: at [numSteps = maxSteps] the physicalness, at most 1, is
    below [numSteps / (maxSteps - 1)]. *)
Theorem newtonProceed_budget
    (c : NewtonControllerBase) (deflection physicalness_u : Q) :
  2 <= _numSteps c ->
  _maxSteps c <= _numSteps c ->
  exists c' : NewtonControllerBase,
    newtonProceed c deflection physicalness_u = Some (false, c').
Proof.
  intros H2 Hmax. unfold newtonProceed.
  destruct (Z.ltb_spec (_numSteps c) 2) as [Hlt | _]; [lia|].
  destruct (Z.gtb_spec (_numSteps c) (_maxSteps c)) as [Hgt | Hle];
    [eexists; reflexivity|].
  destruct (newtonConverged c deflection); [eexists; reflexivity|].
  cbn [_curPhysicalness _numSteps _maxSteps _maxPhysicalness _probationCount
       set_curPhysicalness].
  destruct (Qle_bool (std_min physicalness_u 1) 0); [eexists; reflexivity|].
  assert (Heq : _maxSteps c = _numSteps c) by lia.
  rewrite scalar_div_nonzero by (apply inject_Z_nonzero; lia).
  cbn [mbind option_bind].
  assert (Hb : Qltb (std_min physicalness_u 1)
                 (inject_Z (_numSteps c) / inject_Z (_maxSteps c - 1)) = true).
  { apply Qltb_lt. pose proof (std_min_le_r physicalness_u 1) as Hle1.
    apply Qle_lt_trans with (y := 1%Q); [exact Hle1|].
    assert (Hpos : (0 < inject_Z (_maxSteps c - 1))%Q)
      by (apply inject_Z_pos; lia).
    apply Qlt_shift_div_l; [exact Hpos|].
    rewrite Heq. rewrite Qmult_1_l. rewrite <- Zlt_Qlt. lia. }
  rewrite Hb. eexists; reflexivity.
Qed.

(** The theorem at the default controller after twelve steps, with a
    fully physical solution and a defect above the tolerance. *)
Lemma newtonProceed_budget_default :
  2 <= _numSteps (set_numSteps begun 12)
  /\ _maxSteps (set_numSteps begun 12) <= _numSteps (set_numSteps begun 12)
  /\ exists c' : NewtonControllerBase,
       newtonProceed (set_numSteps begun 12) 1 1 = Some (false, c').
Proof.
  assert (H1 : 2 <= _numSteps (set_numSteps begun 12))
    by (vm_compute; discriminate).
  assert (H2 : _maxSteps (set_numSteps begun 12)
               <= _numSteps (set_numSteps begun 12))
    by (vm_compute; discriminate).
  split; [exact H1|]. split; [exact H2|].
  exact (newtonProceed_budget (set_numSteps begun 12) 1 1 H1 H2).
Defined.

(** What a call of [newtonProceed] can leave behind. *)
Lemma newtonProceed_cases (c : NewtonControllerBase) (deflection physicalness_u : Q)
    (b : bool) (c' : NewtonControllerBase) :
  newtonProceed c deflection physicalness_u = Some (b, c') ->
  c' = c
  \/ (b = false /\ c' = set_curPhysicalness c (std_min physicalness_u 1))
  \/ (b = true
      /\ _probationCount c <= 1
      /\ c' = set_probationCount
                (set_curPhysicalness c (std_min physicalness_u 1))
                (_probationCount c + 1))
  \/ (b = true
      /\ (0 < std_min physicalness_u 1)%Q
      /\ (_maxPhysicalness c <= std_min physicalness_u 1)%Q
      /\ c' = set_probationCount
                (set_maxPhysicalness
                   (set_curPhysicalness c (std_min physicalness_u 1))
                   (std_min physicalness_u 1))
                (Z.min 0 (_probationCount c - 1))).
Proof.
  unfold newtonProceed.
  destruct (_numSteps c <? 2); [intros [= <- <-]; left; reflexivity|].
  destruct (_numSteps c >? _maxSteps c); [intros [= <- <-]; left; reflexivity|].
  destruct (newtonConverged c deflection); [intros [= <- <-]; left; reflexivity|].
  cbn [_curPhysicalness _numSteps _maxSteps _maxPhysicalness _probationCount
       set_curPhysicalness set_maxPhysicalness].
  destruct (Qle_bool (std_min physicalness_u 1) 0) eqn:Ezero;
    [intros [= <- <-]; right; left; split; reflexivity|].
  destruct (scalar_div (inject_Z (_numSteps c)) (inject_Z (_maxSteps c - 1)))
    as [bound|]; [|discriminate].
  cbn [mbind option_bind].
  destruct (Qltb (std_min physicalness_u 1) bound);
    [intros [= <- <-]; right; left; split; reflexivity|].
  destruct (Qltb (std_min physicalness_u 1) (_maxPhysicalness c)) eqn:Eregress.
  - destruct (Z.gtb_spec (_probationCount c) 1) as [Hgt | Hle].
    + intros [= <- <-]. right; left; split; reflexivity.
    + intros [= <- <-]. right; right; left. repeat split. exact Hle.
  - intros [= <- <-]. right; right; right. repeat split.
    + apply Qnot_le_lt. intros Hle. apply Qle_bool_iff in Hle. congruence.
    + apply Qltb_ge. exact Eregress.
Qed.

(** X3.  Asking whether to proceed consumes nothing: whatever
    [newtonProceed] returns, the step count, the step budget, the target,
    the tolerance and the normalisation are as before, and the best
    physicalness so far has not decreased. *)
Theorem newtonProceed_frame (c : NewtonControllerBase)
    (deflection physicalness_u : Q) (b : bool) (c' : NewtonControllerBase) :
  newtonProceed c deflection physicalness_u = Some (b, c') ->
  _numSteps c' = _numSteps c
  /\ _maxSteps c' = _maxSteps c
  /\ _targetSteps c' = _targetSteps c
  /\ _tolerance c' = _tolerance c
  /\ _oneByMagnitude c' = _oneByMagnitude c
  /\ (_maxPhysicalness c <= _maxPhysicalness c')%Q.
Proof.
  intros H. apply newtonProceed_cases in H.
  destruct H as [-> | [[_ ->] | [(_ & _ & ->) | (_ & _ & Hmax & ->)]]];
    cbn; repeat split; try apply Qle_refl; exact Hmax.
Qed.

(** The theorem at the regression of [regressionAtStep5]. *)
Lemma newtonProceed_frame_step5 :
  newtonProceed regressionAtStep5 1 (1 # 2)
    = Some (true, set_probationCount regressionAtStep5 1)
  /\ _numSteps (set_probationCount regressionAtStep5 1) = 5
  /\ (_maxPhysicalness regressionAtStep5
        <= _maxPhysicalness (set_probationCount regressionAtStep5 1))%Q.
Proof.
  assert (H : newtonProceed regressionAtStep5 1 (1 # 2)
              = Some (true, set_probationCount regressionAtStep5 1))
    by reflexivity.
  split; [exact H|].
  destruct (newtonProceed_frame regressionAtStep5 1 (1 # 2) true _ H)
    as (Hn & _ & _ & _ & _ & Hm).
  split; [exact Hn | exact Hm].
Defined.

(** X4.  The controller keeps at most two solutions on probation and a best
    physicalness between 0 and 1: [newtonBegin] establishes this, and
    [newtonEndStep], [newtonFail] and [newtonProceed] preserve it. *)
Theorem probationInvariant_kept (c : NewtonControllerBase)
    (u_two_norm deflection physicalness_u : Q) :
  probationInvariant (newtonBegin c u_two_norm)
  /\ (probationInvariant c ->
      probationInvariant (newtonEndStep c physicalness_u)
      /\ probationInvariant (newtonFail c)
      /\ forall (b : bool) (c' : NewtonControllerBase),
           newtonProceed c deflection physicalness_u = Some (b, c') ->
           probationInvariant c').
Proof.
  split.
  - unfold probationInvariant. cbn. repeat split; try lia; discriminate.
  - intros (Hp & H0 & H1). split; [|split].
    + unfold probationInvariant. cbn. repeat split; assumption.
    + unfold probationInvariant. cbn. repeat split; assumption.
    + intros b c' H. apply newtonProceed_cases in H.
      pose proof (std_min_le_r physicalness_u 1) as Hle1.
      destruct H as [-> | [[_ ->] | [(_ & Hle & ->) | (_ & Hpos & _ & ->)]]];
        unfold probationInvariant; cbn; repeat split;
        try assumption; try lia; lra.
Qed.

(** The theorem at the second regression of the scenario: the count
    reaches its bound of two. *)
Lemma probationInvariant_kept_step6 :
  probationInvariant regressionAtStep6
  /\ newtonProceed regressionAtStep6 1 (6 # 10)
     = Some (true, set_probationCount regressionAtStep6 2)
  /\ probationInvariant (set_probationCount regressionAtStep6 2).
Proof.
  assert (Hinv : probationInvariant regressionAtStep6).
  { unfold probationInvariant. vm_compute. repeat split; discriminate. }
  split; [exact Hinv|]. split; [reflexivity|].
  destruct (probationInvariant_kept regressionAtStep6 1 1 (6 # 10)) as [_ H].
  destruct (H Hinv) as (_ & _ & Hproceed).
  exact (Hproceed true _ eq_refl).
Defined.

(** X5.  The reference controller, whose [_physicalness] is constantly 1,
    continues exactly while fewer than two steps are done, or fewer than
    [maxSteps] steps are done and [newtonConverged] is false. *)
Theorem newtonProceed_reference (c : NewtonControllerBase) (deflection : Q) :
  (_maxPhysicalness c <= 1)%Q ->
  exists c' : NewtonControllerBase,
    newtonProceed c deflection _physicalness =
      Some ((_numSteps c <? 2)
            || ((_numSteps c <? _maxSteps c)
                && negb (newtonConverged c deflection)), c').
Proof.
  intros Hmax. unfold newtonProceed, _physicalness.
  destruct (Z.ltb_spec (_numSteps c) 2) as [Hlt | H2]; [eexists; reflexivity|].
  destruct (Z.gtb_spec (_numSteps c) (_maxSteps c)) as [Hgt | Hle].
  { destruct (Z.ltb_spec (_numSteps c) (_maxSteps c)); [lia|].
    eexists; reflexivity. }
  destruct (newtonConverged c deflection).
  { rewrite andb_false_r. eexists; reflexivity. }
  rewrite andb_true_r.
  cbn [_curPhysicalness _numSteps _maxSteps _maxPhysicalness _probationCount
       set_curPhysicalness set_maxPhysicalness].
  change (std_min 1 1) with 1%Q.
  change (Qle_bool 1 0) with false. cbv iota.
  rewrite scalar_div_nonzero by (apply inject_Z_nonzero; lia).
  cbn [mbind option_bind].
  assert (Hpos : (0 < inject_Z (_maxSteps c - 1))%Q)
    by (apply inject_Z_pos; lia).
  destruct (Z.ltb_spec (_numSteps c) (_maxSteps c)) as [Hlt | Hge].
  - assert (Hb : Qltb 1 (inject_Z (_numSteps c) / inject_Z (_maxSteps c - 1))
                 = false).
    { apply Qltb_ge. apply Qle_shift_div_r; [exact Hpos|].
      rewrite Qmult_1_l. rewrite <- Zle_Qle. lia. }
    rewrite Hb.
    assert (Hm : Qltb 1 (_maxPhysicalness c) = false)
      by (apply Qltb_ge; exact Hmax).
    rewrite Hm. eexists; reflexivity.
  - assert (Hb : Qltb 1 (inject_Z (_numSteps c) / inject_Z (_maxSteps c - 1))
                 = true).
    { apply Qltb_lt. apply Qlt_shift_div_l; [exact Hpos|].
      rewrite Qmult_1_l. rewrite <- Zlt_Qlt. lia. }
    rewrite Hb. eexists; reflexivity.
Qed.

(** The theorem at the default controller after three steps: with a defect
    above the tolerance it continues, with a defect of 1e-6 it stops. *)
Lemma newtonProceed_reference_three_steps :
  (_maxPhysicalness afterThreeSteps <= 1)%Q
  /\ (exists c', newtonProceed afterThreeSteps 1 _physicalness = Some (true, c'))
  /\ (exists c', newtonProceed afterThreeSteps (1 # 1000000) _physicalness
                 = Some (false, c')).
Proof.
  assert (H : (_maxPhysicalness afterThreeSteps <= 1)%Q) by discriminate.
  split; [exact H|]. split.
  - exact (newtonProceed_reference afterThreeSteps 1 H).
  - exact (newtonProceed_reference afterThreeSteps (1 # 1000000) H).
Defined.

(** The two branches of [suggestTimeStepSize] for a positive target. *)
Lemma suggestTimeStepSize_shrink (c : NewtonControllerBase) (oldTimeStep : Q) :
  0 < _targetSteps c ->
  _targetSteps c < _numSteps c ->
  suggestTimeStepSize c oldTimeStep =
    Some (oldTimeStep
          / (1 + (inject_Z (_numSteps c) - inject_Z (_targetSteps c))
                 / inject_Z (_targetSteps c)))%Q
  /\ (0 < (inject_Z (_numSteps c) - inject_Z (_targetSteps c))
          / inject_Z (_targetSteps c))%Q.
Proof.
  intros Ht Hn. unfold suggestTimeStepSize.
  pose proof (inject_Z_pos _ Ht) as Htq.
  destruct (Z.gtb_spec (_numSteps c) (_targetSteps c)) as [_ | Hle]; [|lia].
  rewrite scalar_div_nonzero by (apply inject_Z_nonzero; lia).
  cbn [mbind option_bind].
  assert (Hp : (0 < (inject_Z (_numSteps c) - inject_Z (_targetSteps c))
                    / inject_Z (_targetSteps c))%Q).
  { apply Qlt_shift_div_l; [exact Htq|]. rewrite Zlt_Qlt in Hn. lra. }
  split; [|exact Hp].
  apply scalar_div_nonzero. intros Hz. lra.
Qed.

Lemma suggestTimeStepSize_grow (c : NewtonControllerBase) (oldTimeStep : Q) :
  0 < _targetSteps c ->
  _numSteps c <= _targetSteps c ->
  suggestTimeStepSize c oldTimeStep =
    Some (oldTimeStep
          * (1 + (inject_Z (_targetSteps c) - inject_Z (_numSteps c))
                 / inject_Z (_targetSteps c) / (12 # 10)))%Q.
Proof.
  intros Ht Hn. unfold suggestTimeStepSize.
  destruct (Z.gtb_spec (_numSteps c) (_targetSteps c)) as [Hgt | _]; [lia|].
  rewrite scalar_div_nonzero by (apply inject_Z_nonzero; lia).
  reflexivity.
Qed.



(** The suggestion in terms of rationals: [n] steps done, target [t]. *)
Lemma suggestTimeStepSize_value (c : NewtonControllerBase) (oldTimeStep : Q) :
  0 < _targetSteps c ->
  0 <= _numSteps c ->
  (0 < oldTimeStep)%Q ->
  exists r : Q,
    suggestTimeStepSize c oldTimeStep = Some r
    /\ (0 < r)%Q
    /\ (_numSteps c <= _targetSteps c ->
        (r * inject_Z (_targetSteps c) * (12 # 10)
         == oldTimeStep
            * (inject_Z (_targetSteps c) * (12 # 10)
               + (inject_Z (_targetSteps c) - inject_Z (_numSteps c))))%Q)
    /\ (_targetSteps c < _numSteps c ->
        (r * inject_Z (_numSteps c) == oldTimeStep * inject_Z (_targetSteps c))%Q).
Proof.
  intros Ht Hn Hold.
  pose proof (inject_Z_pos _ Ht) as Htq.
  destruct (Z.le_gt_cases (_numSteps c) (_targetSteps c)) as [Hle | Hgt].
  - rewrite (suggestTimeStepSize_grow c oldTimeStep Ht Hle).
    eexists. split; [reflexivity|].
    assert (Hq : (0 <= (inject_Z (_targetSteps c) - inject_Z (_numSteps c))
                       / inject_Z (_targetSteps c) / (12 # 10))%Q).
    { apply Qle_shift_div_l; [reflexivity|]. rewrite Qmult_0_l.
      apply Qle_shift_div_l; [exact Htq|]. rewrite Qmult_0_l.
      rewrite Zle_Qle in Hle. lra. }
    split; [|split].
    + remember ((inject_Z (_targetSteps c) - inject_Z (_numSteps c))
                / inject_Z (_targetSteps c) / (12 # 10))%Q as growth. nra.
    + intros _. field. intros Hz. lra.
    + intros Hlt. lia.
  - destruct (suggestTimeStepSize_shrink c oldTimeStep Ht Hgt) as [Heq Hp].
    rewrite Heq. eexists. split; [reflexivity|].
    split; [|split].
    + apply Qlt_shift_div_l; [lra|]. lra.
    + intros Hle. lia.
    + intros _. field. split; intros Hz; [lra|].
      assert (Hnq : (0 < inject_Z (_numSteps c))%Q)
        by (apply inject_Z_pos; lia).
      lra.
Qed.

Lemma Qmult_nonneg_reg (d k : Q) : (0 < k)%Q -> (0 <= d * k)%Q -> (0 <= d)%Q.
Proof.
  intros Hk H. apply (Qmult_lt_0_le_reg_r 0 d k Hk).
  rewrite Qmult_0_l. exact H.
Qed.

(** X7.  For a positive target and a positive old step size,
    [suggestTimeStepSize] is antitone in the number of steps done: more
    steps never give a larger suggestion.  Every suggestion is positive and
    at most 11/6 of the old step size. *)
Theorem suggestTimeStepSize_antitone
    (c : NewtonControllerBase) (n1 n2 : Z) (oldTimeStep : Q) :
  0 < _targetSteps c ->
  0 <= n1 <= n2 ->
  (0 < oldTimeStep)%Q ->
  exists r1 r2 : Q,
    suggestTimeStepSize (set_numSteps c n1) oldTimeStep = Some r1
    /\ suggestTimeStepSize (set_numSteps c n2) oldTimeStep = Some r2
    /\ (0 < r2)%Q /\ (r2 <= r1)%Q /\ (r1 <= oldTimeStep * (11 # 6))%Q.
Proof.
  intros Ht [Hn1 Hn12] Hold.
  pose proof (inject_Z_pos _ Ht) as Htq.
  destruct (suggestTimeStepSize_value (set_numSteps c n1) oldTimeStep)
    as (r1 & H1 & Hr1 & Hg1 & Hs1); [exact Ht | exact Hn1 | exact Hold |].
  destruct (suggestTimeStepSize_value (set_numSteps c n2) oldTimeStep)
    as (r2 & H2 & Hr2 & Hg2 & Hs2); [exact Ht | cbn; lia | exact Hold |].
  cbn [set_numSteps _numSteps _targetSteps] in Hg1, Hs1, Hg2, Hs2.
  exists r1, r2. split; [exact H1|]. split; [exact H2|]. split; [exact Hr2|].
  assert (Hq1 : (0 <= inject_Z n1)%Q)
    by (change 0%Q with (inject_Z 0); rewrite <- Zle_Qle; exact Hn1).
  assert (Hq12 : (inject_Z n1 <= inject_Z n2)%Q)
    by (rewrite <- Zle_Qle; exact Hn12).
  remember (inject_Z (_targetSteps c)) as T.
  remember (inject_Z n1) as N1. remember (inject_Z n2) as N2.
  destruct (Z.le_gt_cases n1 (_targetSteps c)) as [Hle1 | Hgt1].
  - specialize (Hg1 Hle1).
    assert (HT1 : (N1 <= T)%Q) by (subst; rewrite <- Zle_Qle; exact Hle1).
    split.
    + destruct (Z.le_gt_cases n2 (_targetSteps c)) as [Hle2 | Hgt2].
      * specialize (Hg2 Hle2).
        assert (Hd : ((r1 - r2) * (T * (12 # 10)) == oldTimeStep * (N2 - N1))%Q)
          by lra.
        assert (Hprod : (0 <= oldTimeStep * (N2 - N1))%Q)
          by (apply Qmult_le_0_compat; lra).
        assert (Hk : (0 < T * (12 # 10))%Q) by lra.
        assert (HD : (0 <= r1 - r2)%Q).
        { apply (Qmult_nonneg_reg _ _ Hk). rewrite Hd. exact Hprod. }
        lra.
      * specialize (Hs2 Hgt2).
        assert (HT2 : (T < N2)%Q) by (subst; rewrite <- Zlt_Qlt; exact Hgt2).
        assert (HN2 : (0 < N2)%Q) by lra.
        assert (Ha : (0 <= oldTimeStep - r2)%Q).
        { apply (Qmult_nonneg_reg _ _ HN2).
          assert (Hx : (0 <= oldTimeStep * (N2 - T))%Q)
            by (apply Qmult_le_0_compat; lra).
          lra. }
        assert (Hk : (0 < T * (12 # 10))%Q) by lra.
        assert (Hb : (0 <= r1 - oldTimeStep)%Q).
        { apply (Qmult_nonneg_reg _ _ Hk).
          assert (Hx : (0 <= oldTimeStep * (T - N1))%Q)
            by (apply Qmult_le_0_compat; lra).
          lra. }
        lra.
    + assert (Hk : (0 < T * (12 # 10))%Q) by lra.
      assert (Hu : ((oldTimeStep * (11 # 6) - r1) * (T * (12 # 10))
                    == oldTimeStep * N1)%Q) by lra.
      assert (Hnn : (0 <= oldTimeStep * N1)%Q)
        by (apply Qmult_le_0_compat; lra).
      assert (HD : (0 <= oldTimeStep * (11 # 6) - r1)%Q).
      { apply (Qmult_nonneg_reg _ _ Hk). rewrite Hu. exact Hnn. }
      lra.
  - specialize (Hs1 Hgt1).
    assert (HT1 : (T < N1)%Q) by (subst; rewrite <- Zlt_Qlt; exact Hgt1).
    assert (Hgt2 : _targetSteps c < n2) by lia.
    specialize (Hs2 Hgt2).
    split.
    + assert (HN1 : (0 < N1)%Q) by lra.
      assert (HD : (0 <= r1 - r2)%Q).
      { apply (Qmult_nonneg_reg _ _ HN1).
        assert (Hx : (0 <= r2 * (N2 - N1))%Q)
          by (apply Qmult_le_0_compat; lra).
        lra. }
      lra.
    + assert (HN1 : (0 < N1)%Q) by lra.
      assert (Ha : (0 <= oldTimeStep - r1)%Q).
      { apply (Qmult_nonneg_reg _ _ HN1).
        assert (Hx : (0 <= oldTimeStep * (N1 - T))%Q)
          by (apply Qmult_le_0_compat; lra).
        lra. }
      lra.
Qed.

(** The theorem at the default controller: 3 and 10 steps for an old step
    size of 100. *)
Lemma suggestTimeStepSize_antitone_default :
  0 < _targetSteps begun
  /\ 0 <= 3 <= 10
  /\ (0 < 100)%Q
  /\ exists r1 r2 : Q,
       suggestTimeStepSize (set_numSteps begun 3) 100 = Some r1
       /\ suggestTimeStepSize (set_numSteps begun 10) 100 = Some r2
       /\ (0 < r2)%Q /\ (r2 <= r1)%Q /\ (r1 <= 100 * (11 # 6))%Q.
Proof.
  assert (H1 : 0 < _targetSteps begun) by reflexivity.
  assert (H2 : 0 <= 3 <= 10) by lia.
  assert (H3 : (0 < 100)%Q) by reflexivity.
  split; [exact H1|]. split; [exact H2|]. split; [exact H3|].
  exact (suggestTimeStepSize_antitone begun 3 10 100 H1 H2 H3).
Defined.

End NewtonMoreProperties.

(** ** More on the intensive-quantity cache *)

Module CacheMoreProperties.

Import Cache CacheProperties.

Section Properties.

Context {IntensiveQuantities : Type}.
Variable TypeTag : Properties.
Implicit Types m : FvBaseDiscretization IntensiveQuantities.

(** *** Hints *)

Lemma firstUpToDate_Some m (globalIdx : nat) (slots : list nat)
    (v : IntensiveQuantities) :
  firstUpToDate m globalIdx slots = Some v ->
  exists s : nat,
    In s slots /\ upToDate m s globalIdx = true /\ entry m s globalIdx = Some v.
Proof.
  induction slots as [|timeIdx2 slots IH]; simpl; [discriminate|].
  destruct (upToDate m timeIdx2 globalIdx) eqn:E.
  - intros H. exists timeIdx2. split; [left; reflexivity|]. split; assumption.
  - intros H. destruct (IH H) as (s & Hin & Hs). exists s.
    split; [right; exact Hin | exact Hs].
Qed.

Lemma wellFormed_entry m (s globalIdx : nat) :
  wellFormed TypeTag m ->
  upToDate m s globalIdx = true ->
  is_Some (entry m s globalIdx).
Proof.
  intros (_ & _ & Hlen) Hup. specialize (Hlen s).
  unfold upToDate in Hup. unfold entry.
  destruct (intensiveQuantityCacheUpToDate_ m !! s) as [f|] eqn:Ef;
    [|discriminate].
  simpl in Hup, Hlen.
  destruct (f !! globalIdx) as [b|] eqn:Eb; [|discriminate].
  apply lookup_lt_Some in Eb.
  destruct (intensiveQuantityCache_ m !! s) as [w|]; simpl in *.
  - apply lookup_lt_is_Some_2. lia.
  - lia.
Qed.

Lemma firstUpToDate_is_Some m (globalIdx : nat) (slots : list nat) (s : nat) :
  wellFormed TypeTag m ->
  In s slots ->
  upToDate m s globalIdx = true ->
  is_Some (firstUpToDate m globalIdx slots).
Proof.
  intros Hwf. induction slots as [|timeIdx2 slots IH]; simpl; [tauto|].
  intros Hin Hup.
  destruct (upToDate m timeIdx2 globalIdx) eqn:E.
  - apply wellFormed_entry; assumption.
  - destruct Hin as [-> | Hin]; [congruence|]. apply IH; assumption.
Qed.

(** X8.  [thermodynamicHint] only ever returns the payload of an entry that
    is up to date, of the requested slot or of a slot of the history; it
    returns nothing when hints are disabled; with hints enabled it returns
    whatever [cachedIntensiveQuantities] returns; and on a well-formed
    cache with hints enabled it does return a hint as soon as some slot of
    the history is up to date for the degree of freedom. *)
Theorem thermodynamicHint_sound m (globalIdx timeIdx : nat)
    (v : IntensiveQuantities) :
  (thermodynamicHint TypeTag m globalIdx timeIdx = Some v ->
   EnableThermodynamicHints TypeTag = true
   /\ exists s : nat,
        (s = timeIdx \/ s < historySize TypeTag)
        /\ upToDate m s globalIdx = true
        /\ entry m s globalIdx = Some v)
  /\ (EnableThermodynamicHints TypeTag = false ->
      thermodynamicHint TypeTag m globalIdx timeIdx = None)
  /\ (EnableThermodynamicHints TypeTag = true ->
      cachedIntensiveQuantities TypeTag m globalIdx timeIdx = Some v ->
      thermodynamicHint TypeTag m globalIdx timeIdx = Some v)
  /\ (EnableThermodynamicHints TypeTag = true ->
      wellFormed TypeTag m ->
      (exists s : nat, s < historySize TypeTag /\ upToDate m s globalIdx = true) ->
      is_Some (thermodynamicHint TypeTag m globalIdx timeIdx)).
Proof.
  unfold thermodynamicHint, enableThermodynamicHints_.
  split; [|split; [|split]].
  - destruct (EnableThermodynamicHints TypeTag); simpl; [|discriminate].
    intros H. split; [reflexivity|].
    destruct (upToDate m timeIdx globalIdx) eqn:E.
    + exists timeIdx. split; [left; reflexivity|]. split; assumption.
    + apply firstUpToDate_Some in H. destruct H as (s & Hin & Hs).
      exists s. split; [|exact Hs]. right.
      apply in_seq in Hin. lia.
  - intros ->. reflexivity.
  - intros ->. simpl. unfold cachedIntensiveQuantities.
    destruct (negb (enableIntensiveQuantitiesCache_ TypeTag)); simpl;
      [discriminate|].
    destruct (upToDate m timeIdx globalIdx); simpl; [|discriminate].
    intros H. exact H.
  - intros -> Hwf (s & Hs & Hup). simpl.
    destruct (upToDate m timeIdx globalIdx) eqn:E.
    + apply wellFormed_entry; assumption.
    + apply (firstUpToDate_is_Some m globalIdx _ s Hwf); [|exact Hup].
      apply in_seq. lia.
Qed.

(** *** Validity flags *)

(** X9.  [setIntensiveQuantitiesCacheEntryValidity] never touches a
    payload and changes no flag but the addressed one; when the cache is
    stored, the addressed flag takes the new value; so marking an entry
    valid makes [cachedIntensiveQuantities] return whatever payload the
    entry holds at that moment. *)
Theorem setValidity_keeps_payload m (globalIdx timeIdx : nat) (newValue : bool) :
  inRange m timeIdx globalIdx ->
  (forall s g : nat,
     entry (setIntensiveQuantitiesCacheEntryValidity TypeTag m globalIdx timeIdx
              newValue) s g = entry m s g)
  /\ (forall s g : nat,
        s <> timeIdx \/ g <> globalIdx ->
        upToDate (setIntensiveQuantitiesCacheEntryValidity TypeTag m globalIdx
                    timeIdx newValue) s g = upToDate m s g)
  /\ (storeIntensiveQuantities_ TypeTag = true ->
      upToDate (setIntensiveQuantitiesCacheEntryValidity TypeTag m globalIdx
                  timeIdx newValue) timeIdx globalIdx = newValue)
  /\ (EnableIntensiveQuantityCache TypeTag = true ->
      cachedIntensiveQuantities TypeTag
        (setIntensiveQuantitiesCacheEntryValidity TypeTag m globalIdx timeIdx true)
        globalIdx timeIdx = entry m timeIdx globalIdx).
Proof.
  intros [Hentry Hflag].
  assert (Hset : storeIntensiveQuantities_ TypeTag = true ->
                 forall b : bool,
                   upToDate (setIntensiveQuantitiesCacheEntryValidity TypeTag m
                               globalIdx timeIdx b) timeIdx globalIdx = b).
  { intros Hs b. unfold setIntensiveQuantitiesCacheEntryValidity, upToDate.
    rewrite Hs. simpl. rewrite lookup2_alter_insert_eq by exact Hflag.
    reflexivity. }
  split; [|split; [|split]].
  - intros s g. unfold setIntensiveQuantitiesCacheEntryValidity.
    destruct (negb (storeIntensiveQuantities_ TypeTag)); reflexivity.
  - intros s g Hne. unfold setIntensiveQuantitiesCacheEntryValidity, upToDate.
    destruct (negb (storeIntensiveQuantities_ TypeTag)); [reflexivity|]. simpl.
    destruct (decide (timeIdx = s)) as [<-|Hs].
    + rewrite list_lookup_alter_eq.
      destruct (intensiveQuantityCacheUpToDate_ m !! timeIdx) as [f|];
        [|reflexivity].
      simpl. rewrite list_lookup_insert_ne by (destruct Hne; congruence).
      reflexivity.
    + rewrite list_lookup_alter_ne by exact Hs. reflexivity.
  - intros Hs. apply Hset. exact Hs.
  - intros Hcache.
    assert (Hs : storeIntensiveQuantities_ TypeTag = true).
    { unfold storeIntensiveQuantities_, enableIntensiveQuantitiesCache_.
      rewrite Hcache. reflexivity. }
    unfold cachedIntensiveQuantities, enableIntensiveQuantitiesCache_.
    rewrite Hcache, (Hset Hs true). simpl.
    unfold setIntensiveQuantitiesCacheEntryValidity.
    rewrite Hs. reflexivity.
Qed.

(** *** Writes *)

(** X10.  The last [updateCachedIntensiveQuantities] on an entry wins: a
    second update of the same entry gives the cache that the second update
    alone gives; and an update leaves the other entries of its slot, payload
    and flag, as they were. *)
Theorem update_last_write_wins m (V1 V2 : IntensiveQuantities)
    (globalIdx timeIdx : nat) :
  updateCachedIntensiveQuantities TypeTag
    (updateCachedIntensiveQuantities TypeTag m V1 globalIdx timeIdx)
    V2 globalIdx timeIdx
  = updateCachedIntensiveQuantities TypeTag m V2 globalIdx timeIdx
  /\ forall g : nat,
       g <> globalIdx ->
       entry (updateCachedIntensiveQuantities TypeTag m V1 globalIdx timeIdx)
         timeIdx g = entry m timeIdx g
       /\ upToDate (updateCachedIntensiveQuantities TypeTag m V1 globalIdx timeIdx)
            timeIdx g = upToDate m timeIdx g.
Proof.
  unfold updateCachedIntensiveQuantities.
  destruct (negb (storeIntensiveQuantities_ TypeTag)).
  - split; [reflexivity|]. intros; split; reflexivity.
  - split.
    + simpl. rewrite !list_alter_alter_eq. f_equal.
      * apply list_alter_ext; [|reflexivity]. intros x _. simpl.
        apply list_insert_insert_eq.
      * apply list_alter_ext; [|reflexivity]. intros x _. simpl.
        apply list_insert_insert_eq.
    + intros g Hg. unfold entry, upToDate. simpl.
      rewrite !list_lookup_alter_eq.
      destruct (intensiveQuantityCache_ m !! timeIdx) as [w|];
        destruct (intensiveQuantityCacheUpToDate_ m !! timeIdx) as [f|];
        simpl; rewrite ?list_lookup_insert_ne by congruence;
        split; reflexivity.
Qed.

(** *** Well-formedness *)

Lemma default_length_lookup_eq {A B : Type} (c : list (list A)) (f : list (list B))
    (i : nat) :
  length c = length f ->
  (forall x y, c !! i = Some x -> f !! i = Some y -> length x = length y) ->
  length (default [] (c !! i)) = length (default [] (f !! i)).
Proof.
  intros Hlen H.
  destruct (c !! i) as [x|] eqn:Ec; destruct (f !! i) as [y|] eqn:Ef; simpl.
  - apply H; reflexivity.
  - apply lookup_lt_Some in Ec. apply lookup_ge_None in Ef. lia.
  - apply lookup_lt_Some in Ef. apply lookup_ge_None in Ec. lia.
  - reflexivity.
Qed.

Lemma wellFormed_lookup m (i : nat) (x : list IntensiveQuantities) (y : list bool) :
  wellFormed TypeTag m ->
  intensiveQuantityCache_ m !! i = Some x ->
  intensiveQuantityCacheUpToDate_ m !! i = Some y ->
  length x = length y.
Proof.
  intros (_ & _ & H) Hx Hy. specialize (H i). rewrite Hx, Hy in H. exact H.
Qed.

Lemma shiftSlot_wellFormed m (numSlots timeIdx : nat) :
  wellFormed TypeTag m -> wellFormed TypeTag (shiftSlot numSlots m timeIdx).
Proof.
  intros Hwf. pose proof Hwf as (Hc & Hf & Hlen).
  unfold wellFormed, shiftSlot. simpl. rewrite !length_insert.
  split; [exact Hc|]. split; [exact Hf|]. intros i.
  apply default_length_lookup_eq; [rewrite !length_insert; lia|].
  intros x y. rewrite !list_lookup_insert, Hc, Hf.
  case_decide as Hd.
  - intros [= <-] [= <-]. apply Hlen.
  - intros Hx Hy. exact (wellFormed_lookup m i x y Hwf Hx Hy).
Qed.

Lemma fold_shiftSlot_wellFormed (numSlots : nat) (slots : list nat) :
  forall m, wellFormed TypeTag m ->
            wellFormed TypeTag (fold_left (shiftSlot numSlots) slots m).
Proof.
  induction slots as [|timeIdx slots IH]; intros m Hwf; simpl; [exact Hwf|].
  apply IH. apply shiftSlot_wellFormed. exact Hwf.
Qed.

Lemma fold_resizeSlot_length (fresh : IntensiveQuantities) (n : nat)
    (slots : list nat) :
  forall m,
    length (intensiveQuantityCache_ (fold_left (resizeSlot fresh n) slots m)) =
      length (intensiveQuantityCache_ m)
    /\ length (intensiveQuantityCacheUpToDate_
                 (fold_left (resizeSlot fresh n) slots m)) =
      length (intensiveQuantityCacheUpToDate_ m).
Proof.
  induction slots as [|timeIdx slots IH]; intros m; simpl; [split; reflexivity|].
  destruct (IH (resizeSlot fresh n m timeIdx)) as [Hc Hf].
  rewrite Hc, Hf. simpl. rewrite !length_alter. split; reflexivity.
Qed.

(** X11.  Every operation of the cache keeps it well formed ([historySize]
    slots in both arrays, as many flags as payloads in each slot), and after
    [resizeAndResetIntensiveQuantitiesCache_] with [n] degrees of freedom
    every slot of a stored cache holds exactly [n] payloads. *)
Theorem wellFormed_kept m (intQuants fresh : IntensiveQuantities)
    (globalIdx timeIdx numSlots n : nat) (newValue : bool) :
  wellFormed TypeTag m ->
  wellFormed TypeTag
    (updateCachedIntensiveQuantities TypeTag m intQuants globalIdx timeIdx)
  /\ wellFormed TypeTag
       (setIntensiveQuantitiesCacheEntryValidity TypeTag m globalIdx timeIdx
          newValue)
  /\ wellFormed TypeTag (shiftIntensiveQuantityCache TypeTag m numSlots)
  /\ wellFormed TypeTag
       (resizeAndResetIntensiveQuantitiesCache_ TypeTag fresh n m)
  /\ (storeIntensiveQuantities_ TypeTag = true ->
      forall s : nat,
        s < historySize TypeTag ->
        length <$> (intensiveQuantityCache_
                      (resizeAndResetIntensiveQuantitiesCache_ TypeTag fresh n m)
                    !! s) = Some n).
Proof.
  intros Hwf. pose proof Hwf as (Hc & Hf & Hlen).
  split; [|split; [|split; [|split]]].
  - unfold updateCachedIntensiveQuantities.
    destruct (negb (storeIntensiveQuantities_ TypeTag)); [exact Hwf|].
    unfold wellFormed. simpl. rewrite !length_alter.
    split; [exact Hc|]. split; [exact Hf|]. intros i.
    apply default_length_lookup_eq; [rewrite !length_alter; lia|].
    intros x y. rewrite !list_lookup_alter. case_decide as Hd.
    + subst i.
      destruct (intensiveQuantityCache_ m !! timeIdx) as [x0|] eqn:Ex;
        [|discriminate].
      destruct (intensiveQuantityCacheUpToDate_ m !! timeIdx) as [y0|] eqn:Ey;
        [|discriminate].
      simpl. intros [= <-] [= <-]. rewrite !length_insert.
      exact (wellFormed_lookup m timeIdx x0 y0 Hwf Ex Ey).
    + intros Hx Hy. exact (wellFormed_lookup m i x y Hwf Hx Hy).
  - unfold setIntensiveQuantitiesCacheEntryValidity.
    destruct (negb (storeIntensiveQuantities_ TypeTag)); [exact Hwf|].
    unfold wellFormed. simpl. rewrite !length_alter.
    split; [exact Hc|]. split; [exact Hf|]. intros i.
    apply default_length_lookup_eq; [rewrite !length_alter; lia|].
    intros x y. rewrite !list_lookup_alter. case_decide as Hd.
    + subst i.
      destruct (intensiveQuantityCacheUpToDate_ m !! timeIdx) as [y0|] eqn:Ey;
        [|discriminate].
      simpl. intros Hx [= <-]. rewrite !length_insert.
      exact (wellFormed_lookup m timeIdx x y0 Hwf Hx Ey).
    + intros Hx Hy. exact (wellFormed_lookup m i x y Hwf Hx Hy).
  - unfold shiftIntensiveQuantityCache.
    destruct (negb (storeIntensiveQuantities_ TypeTag)); [exact Hwf|].
    pose proof (fold_shiftSlot_wellFormed numSlots
                  (seq 0 (historySize TypeTag - numSlots)) m Hwf) as Hwf'.
    pose proof Hwf' as (Hc' & Hf' & Hlen').
    unfold wellFormed. simpl. rewrite !length_alter.
    split; [exact Hc'|]. split; [exact Hf'|]. intros i.
    apply default_length_lookup_eq; [rewrite !length_alter; lia|].
    intros x y. rewrite !list_lookup_alter. case_decide as Hd.
    + subst i.
      destruct (intensiveQuantityCacheUpToDate_
                  (fold_left (shiftSlot numSlots)
                     (seq 0 (historySize TypeTag - numSlots)) m) !! 0)
        as [y0|] eqn:Ey; [|discriminate].
      simpl. intros Hx [= <-]. unfold fill_false. rewrite length_replicate.
      exact (wellFormed_lookup _ 0 x y0 Hwf' Hx Ey).
    + intros Hx Hy. exact (wellFormed_lookup _ i x y Hwf' Hx Hy).
  - unfold resizeAndResetIntensiveQuantitiesCache_.
    destruct (storeIntensiveQuantities_ TypeTag); [|exact Hwf].
    destruct (fold_resizeSlot_length fresh n (seq 0 (historySize TypeTag)) m)
      as [Hc' Hf'].
    unfold wellFormed. rewrite Hc', Hf'.
    split; [exact Hc|]. split; [exact Hf|]. intros i.
    apply default_length_lookup_eq; [lia|].
    intros x y. rewrite fold_resizeSlot_cache, fold_resizeSlot_upToDate.
    case_decide as Hd.
    + destruct (intensiveQuantityCache_ m !! i) as [x0|]; [|discriminate].
      destruct (intensiveQuantityCacheUpToDate_ m !! i) as [y0|]; [|discriminate].
      simpl. intros [= <-] [= <-]. unfold fill_false.
      rewrite length_replicate, !length_resize. reflexivity.
    + intros Hx Hy. exact (wellFormed_lookup m i x y Hwf Hx Hy).
  - intros Hs s Hlt. unfold resizeAndResetIntensiveQuantitiesCache_.
    rewrite Hs, fold_resizeSlot_cache. case_decide as Hd; [|lia].
    destruct (lookup_lt_is_Some_2 (intensiveQuantityCache_ m) s) as [x Hx];
      [lia|].
    rewrite Hx. simpl. rewrite length_resize. reflexivity.
Qed.

(** *** The shift of the history *)

Lemma fold_shiftSlot_one {A B : Type} (j : nat) :
  forall (c : list (list A)) (f : list (list B))
         (step : list (list A) * list (list B) -> nat ->
                 list (list A) * list (list B)),
    (forall cf timeIdx,
       step cf timeIdx =
         (<[timeIdx + 1 := default [] (fst cf !! timeIdx)]> (fst cf),
          <[timeIdx + 1 := default [] (snd cf !! timeIdx)]> (snd cf))) ->
    j < length c -> j < length f ->
    forall i : nat,
      fst (fold_left step (seq 0 j) (c, f)) !! i =
        (if decide (i <= j) then c !! 0 else c !! i)
      /\ snd (fold_left step (seq 0 j) (c, f)) !! i =
        (if decide (i <= j) then f !! 0 else f !! i).
Proof.
  intros c f step Hstep. induction j as [|j IH]; intros Hc Hf i.
  - simpl. case_decide as Hd; [|split; reflexivity].
    assert (i = 0) as -> by lia. split; reflexivity.
  - rewrite seq_S, fold_left_app. simpl. rewrite Hstep.
    assert (Hlen : length (fst (fold_left step (seq 0 j) (c, f))) = length c
                   /\ length (snd (fold_left step (seq 0 j) (c, f))) = length f).
    { clear IH i. induction j as [|j IHj]; [split; reflexivity|].
      rewrite seq_S, fold_left_app. simpl. rewrite Hstep. simpl.
      rewrite !length_insert. apply IHj; lia. }
    destruct Hlen as [Hlc Hlf].
    destruct (IH ltac:(lia) ltac:(lia) j) as [Hcj Hfj].
    rewrite decide_True in Hcj by lia. rewrite decide_True in Hfj by lia.
    destruct (lookup_lt_is_Some_2 c 0) as [c0 Hc0]; [lia|].
    destruct (lookup_lt_is_Some_2 f 0) as [f0 Hf0]; [lia|].
    simpl. rewrite Hcj, Hfj, Hc0, Hf0. simpl.
    destruct (decide (i = j + 1)) as [->|Hne].
    + rewrite !list_lookup_insert_eq by lia.
      rewrite !decide_True by lia. split; reflexivity.
    + rewrite !list_lookup_insert_ne by lia.
      destruct (IH ltac:(lia) ltac:(lia) i) as [Hci Hfi].
      rewrite Hci, Hfi. rewrite <- Hc0, <- Hf0.
      repeat case_decide; try lia; split; reflexivity.
Qed.

Lemma fold_shiftSlot_pair (slots : list nat) :
  forall m,
    (intensiveQuantityCache_ (fold_left (shiftSlot 1) slots m),
     intensiveQuantityCacheUpToDate_ (fold_left (shiftSlot 1) slots m)) =
    fold_left
      (fun (cf : list (list IntensiveQuantities) * list (list bool)) timeIdx =>
         (<[timeIdx + 1 := default [] (fst cf !! timeIdx)]> (fst cf),
          <[timeIdx + 1 := default [] (snd cf !! timeIdx)]> (snd cf)))
      slots (intensiveQuantityCache_ m, intensiveQuantityCacheUpToDate_ m).
Proof.
  induction slots as [|timeIdx slots IH]; intros m; simpl; [reflexivity|].
  rewrite IH. reflexivity.
Qed.

(** What a shift by one slot leaves in the two arrays. *)
Lemma shiftIntensiveQuantityCache_one_lookup m (k : nat) :
  storeIntensiveQuantities_ TypeTag = true ->
  wellFormed TypeTag m ->
  1 <= k < historySize TypeTag ->
  intensiveQuantityCache_ (shiftIntensiveQuantityCache TypeTag m 1) !! k
    = intensiveQuantityCache_ m !! 0
  /\ intensiveQuantityCacheUpToDate_ (shiftIntensiveQuantityCache TypeTag m 1) !! k
     = intensiveQuantityCacheUpToDate_ m !! 0
  /\ intensiveQuantityCache_ (shiftIntensiveQuantityCache TypeTag m 1) !! 0
     = intensiveQuantityCache_ m !! 0
  /\ intensiveQuantityCacheUpToDate_ (shiftIntensiveQuantityCache TypeTag m 1) !! 0
     = fill_false <$> (intensiveQuantityCacheUpToDate_ m !! 0).
Proof.
  intros Hs (Hc & Hf & _) Hk.
  assert (Hlook : forall i : nat,
            intensiveQuantityCache_
              (fold_left (shiftSlot 1) (seq 0 (historySize TypeTag - 1)) m) !! i
            = (if decide (i <= historySize TypeTag - 1)
               then intensiveQuantityCache_ m !! 0
               else intensiveQuantityCache_ m !! i)
            /\ intensiveQuantityCacheUpToDate_
                 (fold_left (shiftSlot 1) (seq 0 (historySize TypeTag - 1)) m) !! i
               = (if decide (i <= historySize TypeTag - 1)
                  then intensiveQuantityCacheUpToDate_ m !! 0
                  else intensiveQuantityCacheUpToDate_ m !! i)).
  { intros i.
    pose proof (fold_shiftSlot_pair (seq 0 (historySize TypeTag - 1)) m) as Hp.
    pose proof (fold_shiftSlot_one (historySize TypeTag - 1)
                  (intensiveQuantityCache_ m) (intensiveQuantityCacheUpToDate_ m)
                  _ (fun cf timeIdx => eq_refl) ltac:(lia) ltac:(lia) i) as Hone.
    rewrite <- Hp in Hone. exact Hone. }
  unfold shiftIntensiveQuantityCache. rewrite Hs. simpl.
  rewrite list_lookup_alter_ne by lia. rewrite list_lookup_alter_eq.
  destruct (Hlook k) as [H1 H2]. destruct (Hlook 0) as [H3 H4].
  rewrite H1, H2, H3, H4, !decide_True by lia.
  repeat split; reflexivity.
Qed.

(** X12.  As the loop of [shiftIntensiveQuantityCache] runs upwards, a shift
    by one slot of a stored, well-formed cache leaves in every slot from 1
    on the payloads and flags that slot 0 held before (with the default
    history of two slots: slot 1 becomes the old slot 0); slot 0 keeps its
    payloads and loses all its flags.  So afterwards
    [cachedIntensiveQuantities] misses on slot 0 and returns on every later
    slot what it returned on slot 0 before. *)
Theorem shift_by_one_copies_slot0 m (k globalIdx : nat) :
  storeIntensiveQuantities_ TypeTag = true ->
  wellFormed TypeTag m ->
  1 <= k < historySize TypeTag ->
  intensiveQuantityCache_ (shiftIntensiveQuantityCache TypeTag m 1) !! k
    = intensiveQuantityCache_ m !! 0
  /\ intensiveQuantityCacheUpToDate_ (shiftIntensiveQuantityCache TypeTag m 1) !! k
     = intensiveQuantityCacheUpToDate_ m !! 0
  /\ intensiveQuantityCache_ (shiftIntensiveQuantityCache TypeTag m 1) !! 0
     = intensiveQuantityCache_ m !! 0
  /\ intensiveQuantityCacheUpToDate_ (shiftIntensiveQuantityCache TypeTag m 1) !! 0
     = fill_false <$> (intensiveQuantityCacheUpToDate_ m !! 0)
  /\ cachedIntensiveQuantities TypeTag (shiftIntensiveQuantityCache TypeTag m 1)
       globalIdx 0 = None
  /\ cachedIntensiveQuantities TypeTag (shiftIntensiveQuantityCache TypeTag m 1)
       globalIdx k = cachedIntensiveQuantities TypeTag m globalIdx 0.
Proof.
  intros Hs Hwf Hk.
  destruct (shiftIntensiveQuantityCache_one_lookup m k Hs Hwf Hk)
    as (Hck & Hfk & Hc0 & Hf0).
  split; [exact Hck|]. split; [exact Hfk|]. split; [exact Hc0|].
  split; [exact Hf0|]. split.
  - unfold cachedIntensiveQuantities, upToDate. rewrite Hf0.
    destruct (intensiveQuantityCacheUpToDate_ m !! 0) as [f|]; simpl.
    + unfold fill_false.
      destruct (replicate (length f) false !! globalIdx) as [b|] eqn:Eb.
      * apply lookup_replicate in Eb as [-> _]. simpl.
        rewrite orb_true_r. reflexivity.
      * simpl. rewrite orb_true_r. reflexivity.
    + rewrite orb_true_r. reflexivity.
  - unfold cachedIntensiveQuantities, upToDate, entry.
    rewrite Hck, Hfk. reflexivity.
Qed.

End Properties.

Import Scenario Examples.

(** The theorem of X8 with hints only: asked for slot 0, which is stale,
    [thermodynamicHint] returns the 13 of slot 1, which is up to date. *)
Lemma thermodynamicHint_sound_sixDofs :
  thermodynamicHint hintsOnly sixDofs 3 0 = Some 13
  /\ EnableThermodynamicHints hintsOnly = true
  /\ exists s : nat,
       (s = 0 \/ s < historySize hintsOnly)
       /\ upToDate sixDofs s 3 = true
       /\ entry sixDofs s 3 = Some 13.
Proof.
  assert (H : thermodynamicHint hintsOnly sixDofs 3 0 = Some 13) by reflexivity.
  split; [exact H|].
  exact (proj1 (thermodynamicHint_sound hintsOnly sixDofs 3 0 13) H).
Defined.

(** The theorem of X9 on the six degrees of freedom: marking the stale
    entry 3 of slot 0 valid serves the payload it holds. *)
Lemma setValidity_keeps_payload_sixDofs :
  inRange sixDofs 0 3
  /\ EnableIntensiveQuantityCache cachingAndHints = true
  /\ cachedIntensiveQuantities cachingAndHints
       (setIntensiveQuantitiesCacheEntryValidity cachingAndHints sixDofs 3 0 true)
       3 0
     = entry sixDofs 0 3.
Proof.
  assert (Hin : inRange sixDofs 0 3) by (split; eexists; reflexivity).
  split; [exact Hin|]. split; [reflexivity|].
  destruct (setValidity_keeps_payload cachingAndHints sixDofs 3 0 true Hin)
    as (_ & _ & _ & H).
  exact (H eq_refl).
Defined.

(** The theorem of X10 on the six degrees of freedom. *)
Lemma update_last_write_wins_sixDofs :
  updateCachedIntensiveQuantities cachingAndHints
    (updateCachedIntensiveQuantities cachingAndHints sixDofs 41 3 0) 42 3 0
  = updateCachedIntensiveQuantities cachingAndHints sixDofs 42 3 0
  /\ 2 <> 3
  /\ entry (updateCachedIntensiveQuantities cachingAndHints sixDofs 41 3 0) 0 2
     = entry sixDofs 0 2
  /\ upToDate (updateCachedIntensiveQuantities cachingAndHints sixDofs 41 3 0) 0 2
     = upToDate sixDofs 0 2.
Proof.
  assert (Hne : 2 <> 3) by lia.
  destruct (update_last_write_wins cachingAndHints sixDofs 41 42 3 0) as [H1 H2].
  split; [exact H1|]. split; [exact Hne|]. exact (H2 2 Hne).
Defined.

(** The theorem of X11 on the six degrees of freedom, resized to four. *)
Lemma wellFormed_kept_sixDofs :
  wellFormed cachingAndHints sixDofs
  /\ storeIntensiveQuantities_ cachingAndHints = true
  /\ 1 < historySize cachingAndHints
  /\ wellFormed cachingAndHints
       (updateCachedIntensiveQuantities cachingAndHints sixDofs 42 3 0)
  /\ wellFormed cachingAndHints
       (setIntensiveQuantitiesCacheEntryValidity cachingAndHints sixDofs 3 0 true)
  /\ wellFormed cachingAndHints (shiftIntensiveQuantityCache cachingAndHints sixDofs 1)
  /\ wellFormed cachingAndHints
       (resizeAndResetIntensiveQuantitiesCache_ cachingAndHints 0 4 sixDofs)
  /\ length <$> (intensiveQuantityCache_
                   (resizeAndResetIntensiveQuantitiesCache_ cachingAndHints 0 4
                      sixDofs) !! 1) = Some 4.
Proof.
  assert (Ht : 1 < historySize cachingAndHints) by (vm_compute; lia).
  assert (Hwf : wellFormed cachingAndHints sixDofs).
  { split; [reflexivity|]. split; [reflexivity|].
    intros [|[|timeIdx]]; reflexivity. }
  split; [exact Hwf|]. split; [reflexivity|]. split; [exact Ht|].
  destruct (wellFormed_kept cachingAndHints sixDofs 42 0 3 0 1 4 true Hwf)
    as (H1 & H2 & H3 & H4 & H5).
  split; [exact H1|]. split; [exact H2|]. split; [exact H3|]. split; [exact H4|].
  exact (H5 eq_refl 1 Ht).
Defined.

(** The theorem of X12 on a cache with both slots up to date: after the
    shift slot 1 serves the 23 that slot 0 served before. *)
Lemma shift_by_one_copies_slot0_bothUpToDate :
  storeIntensiveQuantities_ cachingAndHints = true
  /\ wellFormed cachingAndHints bothUpToDate
  /\ 1 <= 1 < historySize cachingAndHints
  /\ cachedIntensiveQuantities cachingAndHints
       (shiftIntensiveQuantityCache cachingAndHints bothUpToDate 1) 3 0 = None
  /\ cachedIntensiveQuantities cachingAndHints
       (shiftIntensiveQuantityCache cachingAndHints bothUpToDate 1) 3 1
     = cachedIntensiveQuantities cachingAndHints bothUpToDate 3 0.
Proof.
  assert (Ht : 1 <= 1 < historySize cachingAndHints) by (vm_compute; lia).
  assert (Hwf : wellFormed cachingAndHints bothUpToDate).
  { split; [reflexivity|]. split; [reflexivity|].
    intros [|[|timeIdx]]; reflexivity. }
  split; [reflexivity|]. split; [exact Hwf|]. split; [exact Ht|].
  destruct (shift_by_one_copies_slot0 cachingAndHints bothUpToDate 1 3
              eq_refl Hwf Ht) as (_ & _ & _ & _ & H0 & H1).
  split; [exact H0 | exact H1].
Defined.

End CacheMoreProperties.

(** ** Time levels *)

Module TimeLevelsProperties.

Import Cache CacheProperties CacheMoreProperties TimeLevels.

Section Properties.

Context {IntensiveQuantities PrimaryVariables Linearizer : Type}.
Variable TypeTag : Properties.
Variable relinearizeAll : Linearizer -> Linearizer.

Local Abbreviation Discretization :=
  (@Discretization IntensiveQuantities PrimaryVariables Linearizer).

(** X13.  A failed update rolls back to the last accepted time level.  Let
    the cache be stored and well formed and the history have at least two
    slots, and let [d'] be any state that agrees with
    [advanceTimeLevel d] on time index 1 (the Newton iterations work on
    time index 0).  Then after [updateFailed] the solution of time index 0
    is the one [d] had, and so are the payloads and the flags of slot 0 of
    the cache, so that [cachedIntensiveQuantities] answers on slot 0 as it
    did for [d]. *)
Theorem updateFailed_restores (d d' : Discretization) (globalIdx : nat) :
  storeIntensiveQuantities_ TypeTag = true ->
  wellFormed TypeTag (cacheOf d) ->
  1 < historySize TypeTag ->
  1 < length (solution_ d) ->
  intensiveQuantityCache_ (cacheOf d') !! 1
    = intensiveQuantityCache_ (cacheOf (advanceTimeLevel TypeTag d)) !! 1 ->
  intensiveQuantityCacheUpToDate_ (cacheOf d') !! 1
    = intensiveQuantityCacheUpToDate_ (cacheOf (advanceTimeLevel TypeTag d)) !! 1 ->
  solution_ d' !! 1 = solution_ (advanceTimeLevel TypeTag d) !! 1 ->
  0 < length (intensiveQuantityCache_ (cacheOf d')) ->
  0 < length (intensiveQuantityCacheUpToDate_ (cacheOf d')) ->
  0 < length (solution_ d') ->
  solution (updateFailed relinearizeAll d') 0 = solution d 0
  /\ intensiveQuantityCache_ (cacheOf (updateFailed relinearizeAll d')) !! 0
     = intensiveQuantityCache_ (cacheOf d) !! 0
  /\ intensiveQuantityCacheUpToDate_ (cacheOf (updateFailed relinearizeAll d')) !! 0
     = intensiveQuantityCacheUpToDate_ (cacheOf d) !! 0
  /\ cachedIntensiveQuantities TypeTag
       (cacheOf (updateFailed relinearizeAll d')) globalIdx 0
     = cachedIntensiveQuantities TypeTag (cacheOf d) globalIdx 0.
Proof.
  intros Hs Hwf Hh Hsol Hc1 Hf1 Hs1 Hlc Hlf Hls.
  pose proof Hwf as (Hc & Hf & _).
  destruct (shiftIntensiveQuantityCache_one_lookup TypeTag (cacheOf d) 1 Hs Hwf
              ltac:(lia)) as (Hck & Hfk & _ & _).
  simpl in Hc1, Hf1, Hs1. rewrite Hck in Hc1. rewrite Hfk in Hf1.
  rewrite list_lookup_insert_eq in Hs1 by exact Hsol.
  destruct (lookup_lt_is_Some_2 (intensiveQuantityCache_ (cacheOf d)) 0)
    as [c0 Hc0]; [lia|].
  destruct (lookup_lt_is_Some_2 (intensiveQuantityCacheUpToDate_ (cacheOf d)) 0)
    as [f0 Hf0]; [lia|].
  assert (Hsol0 : solution (updateFailed relinearizeAll d') 0 = solution d 0).
  { unfold solution at 1. simpl.
    rewrite list_lookup_insert_eq by exact Hls. simpl.
    unfold solution at 1. rewrite Hs1. reflexivity. }
  assert (Hcache0 :
            intensiveQuantityCache_ (cacheOf (updateFailed relinearizeAll d')) !! 0
            = intensiveQuantityCache_ (cacheOf d) !! 0).
  { simpl. rewrite list_lookup_insert_eq by exact Hlc.
    rewrite Hc1, Hc0. reflexivity. }
  assert (Hflag0 :
            intensiveQuantityCacheUpToDate_
              (cacheOf (updateFailed relinearizeAll d')) !! 0
            = intensiveQuantityCacheUpToDate_ (cacheOf d) !! 0).
  { simpl. rewrite list_lookup_insert_eq by exact Hlf.
    rewrite Hf1, Hf0. reflexivity. }
  split; [exact Hsol0|]. split; [exact Hcache0|]. split; [exact Hflag0|].
  unfold cachedIntensiveQuantities, upToDate, entry.
  rewrite Hcache0, Hflag0. reflexivity.
Qed.

(** *** The end of [finishInit] *)

Lemma fold_invalidateSlot (k : nat) :
  forall (a : nat) (c : FvBaseDiscretization IntensiveQuantities) (i : nat),
    intensiveQuantityCacheUpToDate_ (fold_left invalidateSlot (seq a k) c) !! i =
      (if decide (a <= i < a + k)
       then fill_false <$> (intensiveQuantityCacheUpToDate_ c !! i)
       else intensiveQuantityCacheUpToDate_ c !! i)
    /\ intensiveQuantityCache_ (fold_left invalidateSlot (seq a k) c)
       = intensiveQuantityCache_ c.
Proof.
  induction k as [|k IH]; intros a c i; simpl.
  - split; [|reflexivity]. case_decide; [lia | reflexivity].
  - destruct (IH (S a) (invalidateSlot c a) i) as [Hf Hc].
    rewrite Hf, Hc. simpl. split; [|reflexivity].
    destruct (decide (a = i)) as [->|Hne].
    + rewrite list_lookup_alter_eq.
      repeat case_decide; try lia. reflexivity.
    + rewrite list_lookup_alter_ne by exact Hne.
      repeat case_decide; try lia; reflexivity.
Qed.

Lemma firstUpToDate_None (c : FvBaseDiscretization IntensiveQuantities)
    (globalIdx : nat) (slots : list nat) :
  (forall s : nat, In s slots -> upToDate c s globalIdx = false) ->
  firstUpToDate c globalIdx slots = None.
Proof.
  induction slots as [|timeIdx2 slots IH]; intros H; simpl; [reflexivity|].
  rewrite (H timeIdx2) by (left; reflexivity).
  apply IH. intros s Hin. apply H. right. exact Hin.
Qed.

(** X14.  After the last part of [finishInit] nothing is served from the
    cache: for every slot of the history and every degree of freedom
    [cachedIntensiveQuantities] misses and [thermodynamicHint] returns
    nothing, whatever the two switches; the payloads stay where they are. *)
Theorem finishInitCache_invalidates
    (c : FvBaseDiscretization IntensiveQuantities) (globalIdx timeIdx : nat) :
  timeIdx < historySize TypeTag ->
  cachedIntensiveQuantities TypeTag (finishInitCache TypeTag c) globalIdx timeIdx
    = None
  /\ thermodynamicHint TypeTag (finishInitCache TypeTag c) globalIdx timeIdx
     = None
  /\ intensiveQuantityCache_ (finishInitCache TypeTag c)
     = intensiveQuantityCache_ c.
Proof.
  intros Ht.
  assert (Hstale : storeIntensiveQuantities_ TypeTag = true ->
                   forall s : nat,
                     s < historySize TypeTag ->
                     upToDate (finishInitCache TypeTag c) s globalIdx = false).
  { intros Hs s Hlt. unfold finishInitCache, upToDate. rewrite Hs.
    destruct (fold_invalidateSlot (historySize TypeTag) 0 c s) as [Hf _].
    rewrite Hf. case_decide; [|lia].
    destruct (intensiveQuantityCacheUpToDate_ c !! s) as [f|]; [|reflexivity].
    simpl. unfold fill_false.
    destruct (replicate (length f) false !! globalIdx) as [b|] eqn:Eb;
      [|reflexivity].
    apply lookup_replicate in Eb as [-> _]. reflexivity. }
  split; [|split].
  - unfold cachedIntensiveQuantities.
    destruct (enableIntensiveQuantitiesCache_ TypeTag) eqn:Ec; [|reflexivity].
    rewrite Hstale; [reflexivity | | exact Ht].
    unfold storeIntensiveQuantities_. rewrite Ec. reflexivity.
  - unfold thermodynamicHint.
    destruct (enableThermodynamicHints_ TypeTag) eqn:Eh; [|reflexivity].
    assert (Hs : storeIntensiveQuantities_ TypeTag = true).
    { unfold storeIntensiveQuantities_. rewrite Eh. apply orb_true_r. }
    simpl. rewrite (Hstale Hs timeIdx Ht).
    apply firstUpToDate_None. intros s Hin. apply Hstale; [exact Hs|].
    apply in_seq in Hin. lia.
  - unfold finishInitCache.
    destruct (storeIntensiveQuantities_ TypeTag); [|reflexivity].
    destruct (fold_invalidateSlot (historySize TypeTag) 0 c 0) as [_ Hc].
    exact Hc.
Qed.

End Properties.

Import Scenario Examples.

(** The theorem of X13: the controller gives up during the first iteration
    after an accepted step, and slot 0 serves the 23 again. *)
Lemma updateFailed_restores_iterating :
  storeIntensiveQuantities_ cachingAndHints = true
  /\ wellFormed cachingAndHints (cacheOf accepted)
  /\ 1 < historySize cachingAndHints
  /\ 1 < length (solution_ accepted)
  /\ intensiveQuantityCache_ (cacheOf iterating) !! 1
     = intensiveQuantityCache_
         (cacheOf (advanceTimeLevel cachingAndHints accepted)) !! 1
  /\ intensiveQuantityCacheUpToDate_ (cacheOf iterating) !! 1
     = intensiveQuantityCacheUpToDate_
         (cacheOf (advanceTimeLevel cachingAndHints accepted)) !! 1
  /\ solution_ iterating !! 1
     = solution_ (advanceTimeLevel cachingAndHints accepted) !! 1
  /\ 0 < length (intensiveQuantityCache_ (cacheOf iterating))
  /\ 0 < length (intensiveQuantityCacheUpToDate_ (cacheOf iterating))
  /\ 0 < length (solution_ iterating)
  /\ solution iterating 0 <> solution accepted 0
  /\ solution (updateFailed S iterating) 0 = solution accepted 0
  /\ cachedIntensiveQuantities cachingAndHints
       (cacheOf (updateFailed S iterating)) 3 0
     = cachedIntensiveQuantities cachingAndHints (cacheOf accepted) 3 0.
Proof.
  assert (Ht : 1 < historySize cachingAndHints) by (vm_compute; lia).
  assert (Hwf : wellFormed cachingAndHints (cacheOf accepted)).
  { split; [reflexivity|]. split; [reflexivity|].
    intros [|[|timeIdx]]; reflexivity. }
  assert (Hsol : 1 < length (solution_ accepted)) by (vm_compute; lia).
  assert (Hlc : 0 < length (intensiveQuantityCache_ (cacheOf iterating)))
    by (vm_compute; lia).
  assert (Hlf : 0 < length (intensiveQuantityCacheUpToDate_ (cacheOf iterating)))
    by (vm_compute; lia).
  assert (Hls : 0 < length (solution_ iterating)) by (vm_compute; lia).
  split; [reflexivity|]. split; [exact Hwf|]. split; [exact Ht|].
  split; [exact Hsol|]. split; [reflexivity|]. split; [reflexivity|].
  split; [reflexivity|]. split; [exact Hlc|]. split; [exact Hlf|].
  split; [exact Hls|]. split; [vm_compute; discriminate|].
  destruct (updateFailed_restores cachingAndHints S accepted iterating 3
              eq_refl Hwf Ht Hsol eq_refl eq_refl eq_refl Hlc Hlf Hls)
    as (H1 & _ & _ & H4).
  split; [exact H1 | exact H4].
Defined.

(** The theorem of X14 on a cache with both slots up to date. *)
Lemma finishInitCache_invalidates_bothUpToDate :
  1 < historySize cachingAndHints
  /\ cachedIntensiveQuantities cachingAndHints bothUpToDate 3 1 = Some 13
  /\ cachedIntensiveQuantities cachingAndHints
       (finishInitCache cachingAndHints bothUpToDate) 3 1 = None
  /\ thermodynamicHint cachingAndHints
       (finishInitCache cachingAndHints bothUpToDate) 3 1 = None
  /\ intensiveQuantityCache_ (finishInitCache cachingAndHints bothUpToDate)
     = intensiveQuantityCache_ bothUpToDate.
Proof.
  assert (Ht : 1 < historySize cachingAndHints) by (vm_compute; lia).
  split; [exact Ht|]. split; [reflexivity|].
  exact (finishInitCache_invalidates cachingAndHints bothUpToDate 3 1 Ht).
Defined.

End TimeLevelsProperties.

(** ** Volumes and boundary of the grid *)

Module GeometryProperties.

Import Assembly Geometry.

(** The sum of a vector of scalars. *)
Lemma sum_alter_add (l : list Q) (i : nat) (d : Q) :
  i < length l ->
  (fold_right Qplus 0 (alter (fun x => x + d) i l) == fold_right Qplus 0 l + d)%Q.
Proof.
  revert i. induction l as [|x l IH]; intros i Hi; simpl in *; [lia|].
  destruct i as [|i]; simpl.
  - ring.
  - pose proof (IH i ltac:(lia)) as H. rewrite H. ring.
Qed.

Lemma sum_zero (n : nat) (l : list Q) :
  (fold_right Qplus 0 (map (fun _ => 0) (resize n 0 l)) == 0)%Q.
Proof.
  induction (resize n 0%Q l) as [|x r IH]; simpl; [reflexivity|].
  rewrite IH. ring.
Qed.

Lemma fold_Qplus_shift (l : list Q) (x : Q) :
  (fold_left Qplus l x == x + fold_left Qplus l 0)%Q.
Proof.
  revert x. induction l as [|y l IH]; intros x; simpl; [ring|].
  rewrite (IH (x + y)%Q), (IH (0 + y)%Q). ring.
Qed.

Lemma fold_Qplus_positive (l : list Q) :
  Forall (fun x => 0 < x)%Q l ->
  l <> [] ->
  (0 < fold_left Qplus l 0)%Q.
Proof.
  intros Hall Hne. destruct l as [|y l]; [congruence|]. simpl.
  apply Forall_cons in Hall as [Hy Hl]. clear Hne.
  rewrite fold_Qplus_shift.
  assert (H0 : (0 <= fold_left Qplus l 0)%Q).
  { clear Hy. induction l as [|z l IH]; simpl; [apply Qle_refl|].
    apply Forall_cons in Hl as [Hz Hl]. rewrite fold_Qplus_shift.
    specialize (IH Hl). lra. }
  lra.
Qed.

Section Properties.

Context {Element : Type}.
Variable partitionType : Element -> PartitionType.
Variable numPrimaryDof : Element -> nat.
Variable globalSpaceIndex : Element -> nat -> nat.
Variable subControlVolume : Element -> nat -> Q.
Variable numBoundaryFaces : Element -> nat.

Local Abbreviation addDofVolume := (addDofVolume globalSpaceIndex subControlVolume).
Local Abbreviation addElementVolume :=
  (addElementVolume partitionType numPrimaryDof globalSpaceIndex subControlVolume).
Local Abbreviation finishInitVolumes :=
  (finishInitVolumes partitionType numPrimaryDof globalSpaceIndex subControlVolume).
Local Abbreviation updateBoundary_ :=
  (updateBoundary_ numPrimaryDof globalSpaceIndex numBoundaryFaces).

Local Abbreviation indicesInRange :=
  (indicesInRange partitionType numPrimaryDof globalSpaceIndex).

(** *** The volumes *)

Lemma addDofVolume_fold_sum (elem : Element) (k : nat) :
  forall (a : nat) (v : list Q * Q),
    (forall dofIdx, a <= dofIdx < a + k ->
                    globalSpaceIndex elem dofIdx < length (fst v)) ->
    (fold_right Qplus 0 (fst v) == snd v)%Q ->
    length (fst (fold_left (addDofVolume elem true) (seq a k) v)) = length (fst v)
    /\ (fold_right Qplus 0 (fst (fold_left (addDofVolume elem true) (seq a k) v))
        == snd (fold_left (addDofVolume elem true) (seq a k) v))%Q.
Proof.
  induction k as [|k IH]; intros a v Hin Hsum; simpl; [split; [reflexivity | exact Hsum]|].
  destruct (IH (S a) (addDofVolume elem true v a)) as [Hlen Heq].
  - intros dofIdx Hd. simpl. rewrite length_alter. apply Hin. lia.
  - simpl.
    pose proof (sum_alter_add (fst v) (globalSpaceIndex elem a)
                  (subControlVolume elem a) ltac:(apply Hin; lia)) as H.
    rewrite H, Hsum. reflexivity.
  - split; [|exact Heq]. rewrite Hlen. simpl. apply length_alter.
Qed.

Lemma addElementVolume_fold_sum (nDofs : nat) (elements : list Element) :
  indicesInRange nDofs elements ->
  forall v : list Q * Q,
    length (fst v) = nDofs ->
    (fold_right Qplus 0 (fst v) == snd v)%Q ->
    length (fst (fold_left addElementVolume elements v)) = nDofs
    /\ (fold_right Qplus 0 (fst (fold_left addElementVolume elements v))
        == snd (fold_left addElementVolume elements v))%Q.
Proof.
  induction elements as [|elem elements IH]; intros Hrange v Hlen Hsum; simpl;
    [split; assumption|].
  assert (Hrange' : indicesInRange nDofs elements).
  { intros e dofIdx Hin. apply Hrange. right. exact Hin. }
  assert (Hstep : length (fst (addElementVolume v elem)) = nDofs
                  /\ (fold_right Qplus 0 (fst (addElementVolume v elem))
                      == snd (addElementVolume v elem))%Q).
  { unfold Geometry.addElementVolume.
    destruct (isInteriorEntity (partitionType elem)) eqn:Eint; simpl;
      [|split; assumption].
    destruct (addDofVolume_fold_sum elem (numPrimaryDof elem) 0 v) as [Hl Hs].
    - intros dofIdx Hd. rewrite Hlen.
      apply Hrange; [left; reflexivity | exact Eint | lia].
    - exact Hsum.
    - split; [rewrite Hl; exact Hlen | exact Hs]. }
  destruct Hstep as [Hl Hs]. apply IH; assumption.
Qed.


(** *** The volume of one degree of freedom *)

Lemma addDofVolume_lookup (elem : Element) (b : bool) (v : list Q * Q)
    (dofIdx g : nat) (x : Q) :
  fst v !! g = Some x ->
  fst (addDofVolume elem b v dofIdx) !! g =
    Some (if Nat.eqb (globalSpaceIndex elem dofIdx) g
          then (x + subControlVolume elem dofIdx)%Q else x).
Proof.
  intros Hx. unfold Geometry.addDofVolume. simpl.
  destruct (Nat.eqb_spec (globalSpaceIndex elem dofIdx) g) as [->|Hne].
  - rewrite list_lookup_alter_eq, Hx. reflexivity.
  - rewrite list_lookup_alter_ne by exact Hne. exact Hx.
Qed.

Lemma addDofVolume_fold_lookup (elem : Element) (b : bool) (g : nat) (k : nat) :
  forall (a : nat) (v : list Q * Q) (x : Q),
    fst v !! g = Some x ->
    fst (fold_left (addDofVolume elem b) (seq a k) v) !! g =
      Some (fold_left Qplus
              (flat_map
                 (fun dofIdx =>
                    if Nat.eqb (globalSpaceIndex elem dofIdx) g
                    then [subControlVolume elem dofIdx] else [])
                 (seq a k))
              x).
Proof.
  induction k as [|k IH]; intros a v x Hx; simpl; [exact Hx|].
  rewrite (IH (S a) _ _ (addDofVolume_lookup elem b v a g x Hx)).
  rewrite fold_left_app.
  destruct (Nat.eqb (globalSpaceIndex elem a) g); reflexivity.
Qed.

Lemma addElementVolume_fold_lookup (elements : list Element) (g : nat) :
  forall (v : list Q * Q) (x : Q),
    fst v !! g = Some x ->
    fst (fold_left addElementVolume elements v) !! g =
      Some (fold_left Qplus
              (flat_map
                 (fun elem =>
                    if isInteriorEntity (partitionType elem)
                    then flat_map
                           (fun dofIdx =>
                              if Nat.eqb (globalSpaceIndex elem dofIdx) g
                              then [subControlVolume elem dofIdx] else [])
                           (seq 0 (numPrimaryDof elem))
                    else [])
                 elements)
              x).
Proof.
  induction elements as [|elem elements IH]; intros v x Hx; simpl; [exact Hx|].
  rewrite fold_left_app. apply IH.
  unfold Geometry.addElementVolume.
  destruct (isInteriorEntity (partitionType elem)); simpl; [|exact Hx].
  apply addDofVolume_fold_lookup. exact Hx.
Qed.

Lemma markLocalDof_fold (dofTotalVolume : list Q) (k : nat) :
  forall (a : nat) (l : list bool) (g : nat),
    a + k <= length l ->
    fold_left (markLocalDof dofTotalVolume) (seq a k) l !! g =
      (if decide (a <= g < a + k)
       then Some (negb (Qeq_bool (default 0%Q (dofTotalVolume !! g)) 0))
       else l !! g)
    /\ length (fold_left (markLocalDof dofTotalVolume) (seq a k) l) = length l.
Proof.
  induction k as [|k IH]; intros a l g Hlen; simpl.
  - split; [|reflexivity]. case_decide; [lia | reflexivity].
  - destruct (IH (S a) (markLocalDof dofTotalVolume l a) g) as [Hl Hn].
    { unfold markLocalDof. rewrite length_insert. lia. }
    rewrite Hl, Hn. unfold markLocalDof. rewrite length_insert.
    split; [|reflexivity].
    destruct (decide (a = g)) as [->|Hne].
    + rewrite list_lookup_insert_eq by lia.
      repeat case_decide; try lia; reflexivity.
    + rewrite list_lookup_insert_ne by exact Hne.
      repeat case_decide; try lia; reflexivity.
Qed.

(** X16.  With positive sub-control volumes, the first part of
    [finishInit] marks a degree of freedom of the grid as local exactly when
    it is a primary degree of freedom of some interior element of the
    process; a degree of freedom that only ghost or overlap elements touch
    is not local. *)
Theorem finishInitVolumes_isLocalDof (nDofs : nat) (elements : list Element)
    (old : Volumes) (g : nat) :
  (forall (elem : Element) (dofIdx : nat),
     In elem elements -> dofIdx < numPrimaryDof elem ->
     (0 < subControlVolume elem dofIdx)%Q) ->
  g < nDofs ->
  length (isLocalDof_ (finishInitVolumes nDofs elements old)) = nDofs
  /\ (isLocalDof_ (finishInitVolumes nDofs elements old) !! g = Some true
      <-> exists (elem : Element) (dofIdx : nat),
            In elem elements
            /\ isInteriorEntity (partitionType elem) = true
            /\ dofIdx < numPrimaryDof elem
            /\ globalSpaceIndex elem dofIdx = g).
Proof.
  intros Hpos Hg. unfold Geometry.finishInitVolumes. simpl.
  set (zeroed := map (fun _ => 0%Q) (resize nDofs 0%Q (dofTotalVolume_ old))).
  set (total := fst (fold_left addElementVolume elements (zeroed, 0%Q))).
  destruct (markLocalDof_fold total nDofs 0
              (resize nDofs false (isLocalDof_ old)) g) as [Hl Hn].
  { rewrite length_resize. lia. }
  rewrite Hl, Hn, length_resize. split; [reflexivity|].
  rewrite decide_True by lia.
  assert (Hz : fst (zeroed, 0%Q) !! g = Some 0%Q).
  { simpl. unfold zeroed. rewrite list_lookup_fmap.
    destruct (lookup_lt_is_Some_2 (resize nDofs 0%Q (dofTotalVolume_ old)) g)
      as [z Hz]; [rewrite length_resize; exact Hg|].
    rewrite Hz. reflexivity. }
  pose proof (addElementVolume_fold_lookup elements g _ _ Hz) as Htotal.
  fold total in Htotal. rewrite Htotal. simpl.
  set (contributions :=
         flat_map
           (fun elem =>
              if isInteriorEntity (partitionType elem)
              then flat_map
                     (fun dofIdx =>
                        if Nat.eqb (globalSpaceIndex elem dofIdx) g
                        then [subControlVolume elem dofIdx] else [])
                     (seq 0 (numPrimaryDof elem))
              else [])
           elements).
  assert (Hmem : forall x : Q,
            In x contributions <->
            exists (elem : Element) (dofIdx : nat),
              In elem elements
              /\ isInteriorEntity (partitionType elem) = true
              /\ dofIdx < numPrimaryDof elem
              /\ globalSpaceIndex elem dofIdx = g
              /\ x = subControlVolume elem dofIdx).
  { intros x. unfold contributions. rewrite in_flat_map. split.
    - intros (elem & Hin & Hx).
      destruct (isInteriorEntity (partitionType elem)) eqn:Eint; [|destruct Hx].
      apply in_flat_map in Hx. destruct Hx as (dofIdx & Hd & Hx).
      apply in_seq in Hd.
      destruct (Nat.eqb_spec (globalSpaceIndex elem dofIdx) g) as [Heq|];
        [|destruct Hx].
      destruct Hx as [<- | []].
      exists elem, dofIdx. repeat split; try assumption; lia.
    - intros (elem & dofIdx & Hin & Eint & Hd & Heq & ->).
      exists elem. split; [exact Hin|]. rewrite Eint.
      apply in_flat_map. exists dofIdx. split; [apply in_seq; lia|].
      rewrite <- Heq, Nat.eqb_refl. left. reflexivity. }
  split.
  - intros [= Hne]. apply negb_true_iff in Hne.
    destruct contributions as [|x rest] eqn:Ec.
    + simpl in Hne. discriminate Hne.
    + destruct (proj1 (Hmem x) (or_introl eq_refl))
        as (elem & dofIdx & Hin & Eint & Hd & Heq & _).
      exists elem, dofIdx. repeat split; assumption.
  - intros (elem & dofIdx & Hin & Eint & Hd & Heq).
    assert (Hall : Forall (fun x => 0 < x)%Q contributions).
    { apply List.Forall_forall. intros x Hx. apply Hmem in Hx.
      destruct Hx as (e & d & He & _ & Hdd & _ & ->). apply Hpos; assumption. }
    assert (Hne : contributions <> []).
    { intros Hnil.
      assert (Hx : In (subControlVolume elem dofIdx) contributions)
        by (apply Hmem; exists elem, dofIdx; repeat split; assumption).
      rewrite Hnil in Hx. destruct Hx. }
    pose proof (fold_Qplus_positive contributions Hall Hne) as Hp.
    f_equal. apply negb_true_iff.
    destruct (Qeq_bool (fold_left Qplus contributions 0%Q) 0%Q) eqn:E;
      [|reflexivity].
    apply Qeq_bool_iff in E. lra.
Qed.

(** *** The boundary *)

Lemma markBoundaryDof_fold (elem : Element) (g : nat) (k : nat) :
  forall (a : nat) (l : list bool),
    length (fold_left (markBoundaryDof globalSpaceIndex elem) (seq a k) l)
      = length l
    /\ (fold_left (markBoundaryDof globalSpaceIndex elem) (seq a k) l !! g
          = Some true
        <-> l !! g = Some true
            \/ (g < length l
                /\ exists dofIdx : nat,
                     a <= dofIdx < a + k /\ globalSpaceIndex elem dofIdx = g)).
Proof.
  induction k as [|k IH]; intros a l; simpl.
  - split; [reflexivity|]. split; [intros H; left; exact H|].
    intros [H | (_ & dofIdx & Hd & _)]; [exact H | lia].
  - destruct (IH (S a) (markBoundaryDof globalSpaceIndex elem l a)) as [Hn Hiff].
    rewrite Hn, Hiff. unfold markBoundaryDof. cbv zeta.
    rewrite length_insert. split; [reflexivity|].
    rewrite list_lookup_insert. split.
    + intros [H | (Hg & dofIdx & Hd & Heq)].
      * case_decide as Hdec.
        -- right. destruct Hdec as [Heq Hlt]. split; [lia|].
           exists a. split; [lia | exact Heq].
        -- left. exact H.
      * right. split; [exact Hg|]. exists dofIdx. split; [lia | exact Heq].
    + intros [H | (Hg & dofIdx & Hd & Heq)].
      * left. case_decide; [reflexivity | exact H].
      * destruct (decide (dofIdx = a)) as [->|Hne].
        -- left. rewrite decide_True by (split; [exact Heq | lia]). reflexivity.
        -- right. split; [exact Hg|]. exists dofIdx. split; [lia | exact Heq].
Qed.

Lemma markBoundaryElement_fold (elements : list Element) (g : nat) :
  forall l : list bool,
    length (fold_left
              (markBoundaryElement numPrimaryDof globalSpaceIndex numBoundaryFaces)
              elements l) = length l
    /\ (fold_left
          (markBoundaryElement numPrimaryDof globalSpaceIndex numBoundaryFaces)
          elements l !! g = Some true
        <-> l !! g = Some true
            \/ (g < length l
                /\ exists (elem : Element) (dofIdx : nat),
                     In elem elements
                     /\ numBoundaryFaces elem <> 0
                     /\ dofIdx < numPrimaryDof elem
                     /\ globalSpaceIndex elem dofIdx = g)).
Proof.
  induction elements as [|elem elements IH]; intros l; simpl.
  - split; [reflexivity|]. split; [intros H; left; exact H|].
    intros [H | (_ & e & d & [] & _)]. exact H.
  - destruct (IH (markBoundaryElement numPrimaryDof globalSpaceIndex
                    numBoundaryFaces l elem)) as [Hn Hiff].
    rewrite Hn, Hiff. clear Hn Hiff IH.
    unfold markBoundaryElement.
    destruct (Nat.eqb_spec (numBoundaryFaces elem) 0) as [Hz | Hnz].
    + split; [reflexivity|]. split.
      * intros [H | (Hg & e & d & Hin & Hrest)]; [left; exact H|].
        right. split; [exact Hg|]. exists e, d. split; [right; exact Hin | exact Hrest].
      * intros [H | (Hg & e & d & [<- | Hin] & Hb & Hrest)]; [left; exact H | lia |].
        right. split; [exact Hg|]. exists e, d. split; [exact Hin|].
        split; [exact Hb | exact Hrest].
    + destruct (markBoundaryDof_fold elem g (numPrimaryDof elem) 0 l) as [Hn Hiff].
      rewrite Hn, Hiff. split; [reflexivity|]. split.
      * intros [[H | (Hg & d & Hd & Heq)] | (Hg & e & d & Hin & Hrest)].
        -- left. exact H.
        -- right. split; [exact Hg|]. exists elem, d.
           split; [left; reflexivity|]. split; [exact Hnz|].
           split; [lia | exact Heq].
        -- right. split; [exact Hg|]. exists e, d.
           split; [right; exact Hin | exact Hrest].
      * intros [H | (Hg & e & d & [<- | Hin] & Hb & Hd & Heq)].
        -- left. left. exact H.
        -- left. right. split; [exact Hg|]. exists d. split; [lia | exact Heq].
        -- right. split; [exact Hg|]. exists e, d.
           split; [exact Hin|]. split; [exact Hb|]. split; [exact Hd | exact Heq].
Qed.

(** X17.  [updateBoundary_] starts from a vector of [numGridDof] cleared
    flags, whatever [onBoundary_] held, and flags a degree of freedom of the
    grid exactly when it is a primary degree of freedom of some element with
    at least one boundary face; elements of every partition type count. *)
Theorem updateBoundary_flags (numGridDof : nat) (elements : list Element)
    (old : list bool) (g : nat) :
  g < numGridDof ->
  length (updateBoundary_ numGridDof elements old) = numGridDof
  /\ (updateBoundary_ numGridDof elements old !! g = Some true
      <-> exists (elem : Element) (dofIdx : nat),
            In elem elements
            /\ numBoundaryFaces elem <> 0
            /\ dofIdx < numPrimaryDof elem
            /\ globalSpaceIndex elem dofIdx = g).
Proof.
  intros Hg. unfold Geometry.updateBoundary_.
  destruct (markBoundaryElement_fold elements g
              (map (fun _ => false) (resize numGridDof false old))) as [Hn Hiff].
  rewrite Hn, Hiff, length_map, length_resize. split; [reflexivity|].
  rewrite list_lookup_fmap. split.
  - intros [H | (_ & H)]; [|exact H].
    destruct (resize numGridDof false old !! g); discriminate H.
  - intros H. right. split; [exact Hg | exact H].
Qed.

End Properties.

Import Scenario Examples.


(** The theorem of X16 on the same line: vertex 2, which only the ghost
    element touches, is not local. *)
Lemma finishInitVolumes_isLocalDof_line :
  (forall (elem : MeshElement) (dofIdx : nat),
     In elem [leftElement; rightElementGhost] ->
     dofIdx < meshNumPrimaryDof elem ->
     (0 < meshSubControlVolume elem dofIdx)%Q)
  /\ 2 < 3
  /\ isLocalDof_ (meshFinishInitVolumes 3 [leftElement; rightElementGhost]
                    (mkVolumes [7%Q] 7%Q [true])) !! 2 = Some false
  /\ ~ exists (elem : MeshElement) (dofIdx : nat),
         In elem [leftElement; rightElementGhost]
         /\ isInteriorEntity (elemPartition elem) = true
         /\ dofIdx < meshNumPrimaryDof elem
         /\ meshGlobalSpaceIndex elem dofIdx = 2.
Proof.
  assert (Hpos : forall (elem : MeshElement) (dofIdx : nat),
             In elem [leftElement; rightElementGhost] ->
             dofIdx < meshNumPrimaryDof elem ->
             (0 < meshSubControlVolume elem dofIdx)%Q).
  { intros elem dofIdx _ _. reflexivity. }
  assert (Hg : 2 < 3) by lia.
  split; [exact Hpos|]. split; [exact Hg|]. split; [reflexivity|].
  intros Hex.
  apply (proj2 (finishInitVolumes_isLocalDof elemPartition meshNumPrimaryDof
                  meshGlobalSpaceIndex meshSubControlVolume 3
                  [leftElement; rightElementGhost] (mkVolumes [7%Q] 7%Q [true])
                  2 Hpos Hg)) in Hex.
  vm_compute in Hex. discriminate Hex.
Defined.

(** The theorem of X17 on the line: the middle vertex belongs to the left
    element, which has a boundary face, and is flagged. *)
Lemma updateBoundary_flags_line :
  1 < 3
  /\ length (meshUpdateBoundary_ 3 [leftElement; rightElementGhost] [true]) = 3
  /\ (meshUpdateBoundary_ 3 [leftElement; rightElementGhost] [true] !! 1
        = Some true
      <-> exists (elem : MeshElement) (dofIdx : nat),
            In elem [leftElement; rightElementGhost]
            /\ meshNumBoundaryFaces elem <> 0
            /\ dofIdx < meshNumPrimaryDof elem
            /\ meshGlobalSpaceIndex elem dofIdx = 1).
Proof.
  assert (Hg : 1 < 3) by lia.
  split; [exact Hg|].
  exact (updateBoundary_flags meshNumPrimaryDof meshGlobalSpaceIndex
           meshNumBoundaryFaces 3 [leftElement; rightElementGhost] [true] 1 Hg).
Defined.

End GeometryProperties.

(** ** Weights and relative errors *)

Module ErrorsProperties.

Import Errors.

Lemma std_max_l_or_r (a b : Q) : std_max a b = a \/ std_max a b = b.
Proof. unfold std_max. destruct (Qltb a b); [right | left]; reflexivity. Qed.

Lemma std_max_lower_l (a b : Q) : (a <= std_max a b)%Q.
Proof.
  unfold std_max. destruct (Qltb a b) eqn:E.
  - apply Qltb_lt in E. apply Qlt_le_weak. exact E.
  - apply Qle_refl.
Qed.

Lemma std_max_lower_r (a b : Q) : (b <= std_max a b)%Q.
Proof.
  unfold std_max. destruct (Qltb a b) eqn:E.
  - apply Qle_refl.
  - apply Qltb_ge in E. exact E.
Qed.

Lemma std_max_compat (a a' b b' : Q) :
  (a == a')%Q -> (b == b')%Q -> (std_max a b == std_max a' b')%Q.
Proof.
  intros Ha Hb. unfold std_max.
  destruct (Qltb a b) eqn:E; destruct (Qltb a' b') eqn:E'; try assumption.
  - apply Qltb_lt in E. apply Qltb_ge in E'. lra.
  - apply Qltb_ge in E. apply Qltb_lt in E'. lra.
Qed.

Lemma primaryVarWeight_range (previous : list (list Q))
    (globalDofIdx pvIdx : nat) :
  (0 < primaryVarWeight previous globalDofIdx pvIdx)%Q
  /\ (primaryVarWeight previous globalDofIdx pvIdx <= 1)%Q.
Proof.
  unfold primaryVarWeight.
  set (absPv := Qabs (default 0%Q (previous !! globalDofIdx ≫= (.!! pvIdx)))).
  pose proof (std_max_lower_r absPv 1) as H1.
  assert (Hm : (0 < std_max absPv 1)%Q) by lra.
  split.
  - apply Qlt_shift_div_l; [exact Hm | lra].
  - apply Qle_shift_div_r; [exact Hm | lra].
Qed.

(** X18.  [primaryVarWeight] is positive and at most 1 for every degree of
    freedom and primary variable; times the magnitude of the primary
    variable of the previous solution it is at most 1, and where that
    magnitude is at least 1 it is exactly its inverse. *)
Theorem primaryVarWeight_bounds (previous : list (list Q))
    (globalDofIdx pvIdx : nat) :
  (0 < primaryVarWeight previous globalDofIdx pvIdx)%Q
  /\ (primaryVarWeight previous globalDofIdx pvIdx <= 1)%Q
  /\ (primaryVarWeight previous globalDofIdx pvIdx
      * Qabs (default 0 (previous !! globalDofIdx ≫= (.!! pvIdx))) <= 1)%Q
  /\ ((1 <= Qabs (default 0 (previous !! globalDofIdx ≫= (.!! pvIdx))))%Q ->
      (primaryVarWeight previous globalDofIdx pvIdx
       * Qabs (default 0 (previous !! globalDofIdx ≫= (.!! pvIdx))) == 1)%Q).
Proof.
  unfold primaryVarWeight.
  set (absPv := Qabs (default 0%Q (previous !! globalDofIdx ≫= (.!! pvIdx)))).
  pose proof (std_max_lower_r absPv 1) as H1.
  pose proof (std_max_lower_l absPv 1) as Ha.
  pose proof (Qabs_nonneg (default 0%Q (previous !! globalDofIdx ≫= (.!! pvIdx))))
    as Hn. fold absPv in Hn.
  assert (Hm : (0 < std_max absPv 1)%Q) by lra.
  split; [|split; [|split]].
  - apply (primaryVarWeight_range previous globalDofIdx pvIdx).
  - apply (primaryVarWeight_range previous globalDofIdx pvIdx).
  - assert (He : (1 / std_max absPv 1 * absPv == absPv / std_max absPv 1)%Q)
      by (field; lra).
    rewrite He. apply Qle_shift_div_r; [exact Hm | lra].
  - intros Hge. unfold std_max.
    destruct (Qltb absPv 1) eqn:E.
    + apply Qltb_lt in E. lra.
    + field. lra.
Qed.

(** The theorem at a previous solution whose only primary variable is -4:
    the weight is a quarter. *)
Lemma primaryVarWeight_bounds_example :
  (1 <= Qabs (default 0 ([[-4]] !! 0%nat ≫= (.!! 0%nat))))%Q
  /\ (primaryVarWeight [[-4]] 0 0
      * Qabs (default 0 ([[-4]] !! 0%nat ≫= (.!! 0%nat))) == 1)%Q.
Proof.
  assert (H : (1 <= Qabs (default 0 ([[-4]] !! 0%nat ≫= (.!! 0%nat))))%Q)
    by discriminate.
  split; [exact H|].
  exact (proj2 (proj2 (proj2 (primaryVarWeight_bounds [[-4%Q]] 0 0))) H).
Defined.

Section RelativeDofError.

Variable previous : list (list Q).
Variable vertexIdx : nat.

Local Abbreviation eqErr := (weightedDifference previous vertexIdx).

Lemma relativeDofErrorStep_eq (pv1 pv2 : list Q) (r : Q) (j : nat) :
  relativeDofErrorStep previous vertexIdx pv1 pv2 r j
  = std_max r (eqErr pv1 pv2 j).
Proof. reflexivity. Qed.

Lemma relativeDofError_fold_bounds (pv1 pv2 : list Q) (B : Q) (k : nat) :
  forall (a : nat) (r : Q),
    (0 <= r)%Q -> (r <= B)%Q ->
    (forall j : nat, a <= j < a + k ->
       (Qabs (default 0 (pv1 !! j) - default 0 (pv2 !! j)) <= B)%Q) ->
    (r <= fold_left (relativeDofErrorStep previous vertexIdx pv1 pv2) (seq a k) r)%Q
    /\ (fold_left (relativeDofErrorStep previous vertexIdx pv1 pv2) (seq a k) r
        <= B)%Q
    /\ forall j : nat, a <= j < a + k ->
         (eqErr pv1 pv2 j
          <= fold_left (relativeDofErrorStep previous vertexIdx pv1 pv2)
               (seq a k) r)%Q.
Proof.
  induction k as [|k IH]; intros a r Hr HB Hd; simpl.
  - split; [apply Qle_refl|]. split; [exact HB|]. intros j Hj. lia.
  - rewrite relativeDofErrorStep_eq.
    remember (std_max r (eqErr pv1 pv2 a)) as r' eqn:Er'.
    assert (Hr' : (r <= r')%Q) by (subst r'; apply std_max_lower_l).
    assert (He : (eqErr pv1 pv2 a <= r')%Q) by (subst r'; apply std_max_lower_r).
    assert (HeB : (eqErr pv1 pv2 a <= B)%Q).
    { unfold weightedDifference. rewrite Qabs_Qmult.
      destruct (primaryVarWeight_range previous vertexIdx a) as (Hw0 & Hw1).
      rewrite (Qabs_pos (primaryVarWeight previous vertexIdx a))
        by (apply Qlt_le_weak; exact Hw0).
      pose proof (Hd a ltac:(lia)) as Hda.
      pose proof (Qabs_nonneg (default 0%Q (pv1 !! a) - default 0%Q (pv2 !! a)))
        as Hn.
      remember (Qabs (default 0%Q (pv1 !! a) - default 0%Q (pv2 !! a))) as d.
      remember (primaryVarWeight previous vertexIdx a) as w.
      assert (Hx : (0 <= d * (1 - w))%Q) by (apply Qmult_le_0_compat; lra).
      lra. }
    assert (Hr'B : (r' <= B)%Q).
    { subst r'.
      destruct (std_max_l_or_r r (eqErr pv1 pv2 a)) as [-> | ->]; assumption. }
    destruct (IH (S a) r') as (H1 & H2 & H3);
      [apply Qle_trans with (y := r); assumption | exact Hr'B | |].
    { intros j Hj. apply Hd. lia. }
    split; [apply Qle_trans with (y := r'); assumption|].
    split; [exact H2|].
    intros j Hj. destruct (decide (j = a)) as [->|Hne].
    + apply Qle_trans with (y := r'); assumption.
    + apply H3. lia.
Qed.

Lemma relativeDofError_fold_compat (pv1 pv2 pv1' pv2' : list Q) (k : nat) :
  (forall j : nat, (eqErr pv1 pv2 j == eqErr pv1' pv2' j)%Q) ->
  forall (a : nat) (r r' : Q),
    (r == r')%Q ->
    (fold_left (relativeDofErrorStep previous vertexIdx pv1 pv2) (seq a k) r
     == fold_left (relativeDofErrorStep previous vertexIdx pv1' pv2') (seq a k) r')%Q.
Proof.
  intros He. induction k as [|k IH]; intros a r r' Hr; simpl; [exact Hr|].
  apply IH. rewrite !relativeDofErrorStep_eq.
  apply std_max_compat; [exact Hr|]. apply He.
Qed.

(** X19.  [relativeDofError] is the largest weighted difference of the
    primary variables: it is at least the weighted difference of every
    equation and never negative; it is at most any bound on the plain
    differences, the weights being at most 1; it is symmetric in its two
    vectors; and it is zero for two equal vectors. *)
Theorem relativeDofError_max (numEq : nat) (pv1 pv2 : list Q) (B : Q) :
  (forall j : nat, j < numEq ->
     (Qabs (default 0 (pv1 !! j) - default 0 (pv2 !! j)) <= B)%Q) ->
  (0 <= B)%Q ->
  (0 <= relativeDofError previous numEq vertexIdx pv1 pv2)%Q
  /\ (relativeDofError previous numEq vertexIdx pv1 pv2 <= B)%Q
  /\ (forall j : nat, j < numEq ->
        (eqErr pv1 pv2 j <= relativeDofError previous numEq vertexIdx pv1 pv2)%Q)
  /\ (relativeDofError previous numEq vertexIdx pv1 pv2
      == relativeDofError previous numEq vertexIdx pv2 pv1)%Q
  /\ (relativeDofError previous numEq vertexIdx pv1 pv1 == 0)%Q.
Proof.
  intros Hd HB. unfold relativeDofError.
  destruct (relativeDofError_fold_bounds pv1 pv2 B numEq 0 0)
    as (H1 & H2 & H3); [apply Qle_refl | exact HB | |].
  { intros j Hj. apply Hd. lia. }
  split; [exact H1|]. split; [exact H2|]. split.
  { intros j Hj. apply H3. lia. }
  split.
  - apply relativeDofError_fold_compat; [|reflexivity].
    intros j. unfold weightedDifference. rewrite !Qabs_Qmult.
    assert (Hopp : (default 0 (pv2 !! j) - default 0 (pv1 !! j)
                    == - (default 0 (pv1 !! j) - default 0 (pv2 !! j)))%Q) by ring.
    rewrite Hopp, Qabs_opp. reflexivity.
  - destruct (relativeDofError_fold_bounds pv1 pv1 0 numEq 0 0)
      as (H1' & H2' & _); [apply Qle_refl | apply Qle_refl | |].
    { intros j Hj.
      assert (Hz : (default 0 (pv1 !! j) - default 0 (pv1 !! j) == 0)%Q) by ring.
      rewrite Hz. discriminate. }
    apply Qle_antisym; assumption.
Qed.

End RelativeDofError.

(** The theorem for two equations and a previous solution of (10, 0.5):
    the differences 5 and 0.25 weigh 0.5 and 0.25, within the bound 5. *)
Lemma relativeDofError_max_example :
  (forall j : nat, (j < 2)%nat ->
     (Qabs (default 0 ([15; 1 # 2] !! j) - default 0 ([10; 1 # 4] !! j)) <= 5)%Q)
  /\ (0 <= 5)%Q
  /\ (relativeDofError [[10; 1 # 2]] 2 0 [15; 1 # 2] [10; 1 # 4] <= 5)%Q
  /\ (relativeDofError [[10; 1 # 2]] 2 0 [15; 1 # 2] [10; 1 # 4] == 1 # 2)%Q.
Proof.
  assert (Hd : forall j : nat, (j < 2)%nat ->
            (Qabs (default 0 ([15; 1 # 2] !! j) - default 0 ([10; 1 # 4] !! j))
             <= 5)%Q).
  { intros [|[|j]] Hj; [discriminate | discriminate | lia]. }
  assert (HB : (0 <= 5)%Q) by discriminate.
  split; [exact Hd|]. split; [exact HB|]. split; [|reflexivity].
  exact (proj1 (proj2 (relativeDofError_max [[10; 1 # 2]]%Q 0 2
                         [15; 1 # 2]%Q [10; 1 # 4]%Q 5%Q Hd HB))).
Defined.

End ErrorsProperties.

(** ** The order of the merges and the split into processes *)

Module MergeProperties.

Import Assembly Storage.

(** *** Sums of scalars *)

Lemma fold_Qplus_perm (l l' : list Q) :
  Permutation l l' ->
  forall x : Q, (fold_left Qplus l x == fold_left Qplus l' x)%Q.
Proof.
  induction 1 as [|y l l' _ IH|y z l|l l' l'' _ IH1 _ IH2]; intros x; simpl.
  - reflexivity.
  - apply IH.
  - rewrite (GeometryProperties.fold_Qplus_shift l (x + z + y)%Q),
            (GeometryProperties.fold_Qplus_shift l (x + y + z)%Q).
    ring.
  - rewrite (IH1 x). apply IH2.
Qed.

Lemma fold_Qplus_app (l l' : list Q) :
  (fold_left Qplus (l ++ l') 0 == fold_left Qplus l 0 + fold_left Qplus l' 0)%Q.
Proof.
  rewrite fold_left_app. apply GeometryProperties.fold_Qplus_shift.
Qed.

(** *** The residual *)

Section Residual.

Context {Element : Type}.
Variable partitionType : Element -> PartitionType.
Variable numPrimaryDof : Element -> nat.
Variable globalSpaceIndex : Element -> nat -> nat.
Variable eval : Element -> LocalBlockVector.
Variable numEq : nat.

Local Abbreviation interior :=
  (fun elem : Element => isInteriorEntity (partitionType elem)).
Local Abbreviation assembleResidual :=
  (assembleResidual partitionType numPrimaryDof globalSpaceIndex eval numEq).
Local Abbreviation ownedContributions :=
  (ownedContributions partitionType numPrimaryDof globalSpaceIndex eval).

Lemma ownedContributions_filter (elements : list Element) (globalI eqIdx : nat) :
  ownedContributions elements globalI eqIdx =
    flat_map (fun elem => dofContributions numPrimaryDof globalSpaceIndex eval
                            elem globalI eqIdx)
             (List.filter interior elements).
Proof.
  unfold Assembly.ownedContributions.
  induction elements as [|e elements IH]; simpl; [reflexivity|].
  destruct (isInteriorEntity (partitionType e)); simpl; rewrite IH; reflexivity.
Qed.

(** X20.  The element loop of [globalResidual] runs on several threads, and the
    lock only makes each merge atomic: the order of the merges is not fixed.
    In exact arithmetic this does not matter.  Two orders of the elements,
    with whatever elements that are not interior among them, and two output
    vectors with the entry in range, give equal values for the entry. *)
Theorem assembleResidual_merge_order (elements elements' : list Element)
    (dest dest' : GlobalEqVector) (globalI eqIdx : nat) :
  eqIdx < numEq ->
  is_Some (valueAt dest globalI eqIdx) ->
  is_Some (valueAt dest' globalI eqIdx) ->
  Permutation (List.filter interior elements) (List.filter interior elements') ->
  exists x y : Q,
    valueAt (assembleResidual elements dest) globalI eqIdx = Some x
    /\ valueAt (assembleResidual elements' dest') globalI eqIdx = Some y
    /\ (x == y)%Q.
Proof.
  intros Heq Hin Hin' Hperm.
  exists (fold_left Qplus (ownedContributions elements globalI eqIdx) 0%Q),
         (fold_left Qplus (ownedContributions elements' globalI eqIdx) 0%Q).
  split; [|split].
  - unfold Assembly.assembleResidual.
    apply AssemblyProperties.valueAt_addElement_fold; [exact Heq|].
    apply AssemblyProperties.valueAt_zero. exact Hin.
  - unfold Assembly.assembleResidual.
    apply AssemblyProperties.valueAt_addElement_fold; [exact Heq|].
    apply AssemblyProperties.valueAt_zero. exact Hin'.
  - apply fold_Qplus_perm.
    rewrite !ownedContributions_filter.
    apply Permutation_flat_map. exact Hperm.
Qed.

End Residual.

(** *** The storage *)

Section GlobalStorage.

Context {Element : Type}.
Variable partitionType : Element -> PartitionType.
Variable numPrimaryDof : nat -> Element -> nat.
Variable evalStorage : nat -> Element -> LocalBlockVector.
Variable numEq : nat.

Local Abbreviation interior :=
  (fun elem : Element => isInteriorEntity (partitionType elem)).
Local Abbreviation addStorageDof := (addStorageDof numEq).
Local Abbreviation addStorageElement :=
  (addStorageElement partitionType numPrimaryDof evalStorage numEq).
Local Abbreviation localStorage :=
  (localStorage partitionType numPrimaryDof evalStorage numEq).
Local Abbreviation globalStorage :=
  (globalStorage partitionType numPrimaryDof evalStorage numEq).
Local Abbreviation storageContributions :=
  (storageContributions partitionType numPrimaryDof evalStorage).

Lemma lookup_addStorageEq_fold (elemStorage : LocalBlockVector)
    (dofIdx eq : nat) (k : nat) :
  forall (a : nat) (storage : EqVector) (x : Q),
    storage !! eq = Some x ->
    fold_left (addStorageEq elemStorage dofIdx) (seq a k) storage !! eq =
      Some (if bool_decide (a <= eq < a + k)
            then (x + localValue elemStorage dofIdx eq)%Q else x).
Proof.
  induction k as [|k IH]; intros a storage x Hx; simpl.
  - rewrite Hx, bool_decide_eq_false_2 by lia. reflexivity.
  - destruct (Nat.eqb_spec a eq) as [->|Hne].
    + rewrite (IH (S eq) _ (x + localValue elemStorage dofIdx eq)%Q).
      * rewrite bool_decide_eq_false_2 by lia.
        rewrite bool_decide_eq_true_2 by lia. reflexivity.
      * unfold addStorageEq. rewrite list_lookup_alter_eq, Hx. reflexivity.
    + rewrite (IH (S a) _ x).
      * destruct (decide (S a <= eq < S a + k)) as [Hin|Hout].
        -- rewrite !bool_decide_eq_true_2 by lia. reflexivity.
        -- rewrite !bool_decide_eq_false_2 by lia. reflexivity.
      * unfold addStorageEq. rewrite list_lookup_alter_ne by exact Hne.
        exact Hx.
Qed.

Lemma lookup_addStorageDof_fold (elemStorage : LocalBlockVector)
    (eq : nat) (k : nat) :
  eq < numEq ->
  forall (a : nat) (storage : EqVector) (x : Q),
    storage !! eq = Some x ->
    fold_left (addStorageDof elemStorage) (seq a k) storage !! eq =
      Some (fold_left Qplus
              (map (fun dofIdx => localValue elemStorage dofIdx eq) (seq a k))
              x).
Proof.
  intros Heq. induction k as [|k IH]; intros a storage x Hx; simpl.
  - exact Hx.
  - apply IH. unfold Storage.addStorageDof.
    rewrite (lookup_addStorageEq_fold elemStorage a eq numEq 0 storage x Hx).
    rewrite bool_decide_eq_true_2 by lia. reflexivity.
Qed.

Lemma lookup_addStorageElement_fold (timeIdx : nat) (elements : list Element)
    (eq : nat) :
  eq < numEq ->
  forall (storage : EqVector) (x : Q),
    storage !! eq = Some x ->
    fold_left (addStorageElement timeIdx) elements storage !! eq =
      Some (fold_left Qplus (storageContributions timeIdx elements eq) x).
Proof.
  intros Heq. unfold Storage.storageContributions.
  induction elements as [|e elements IH]; intros storage x Hx; simpl.
  - exact Hx.
  - unfold Storage.addStorageElement at 2.
    destruct (isInteriorEntity (partitionType e)); simpl.
    + rewrite fold_left_app. apply IH.
      apply lookup_addStorageDof_fold; assumption.
    + apply IH. exact Hx.
Qed.

Lemma lookup_localStorage (timeIdx : nat) (elements : list Element)
    (storage : EqVector) (eq : nat) :
  eq < numEq ->
  eq < length storage ->
  localStorage timeIdx elements storage !! eq =
    Some (fold_left Qplus (storageContributions timeIdx elements eq) 0%Q).
Proof.
  intros Heq Hlen. unfold Storage.localStorage.
  apply lookup_addStorageElement_fold; [exact Heq|].
  rewrite list_lookup_fmap.
  destruct (lookup_lt_is_Some_2 storage eq Hlen) as [x Hx].
  rewrite Hx. reflexivity.
Qed.

Lemma storageContributions_app (timeIdx : nat) (l l' : list Element) (eq : nat) :
  storageContributions timeIdx (l ++ l') eq =
    storageContributions timeIdx l eq ++ storageContributions timeIdx l' eq.
Proof.
  unfold Storage.storageContributions.
  rewrite List.filter_app, flat_map_app. reflexivity.
Qed.

Lemma lookup_addEqVector_fold (vs : list EqVector) (eq : nat) (ys : list Q) :
  Forall2 (fun v y => v !! eq = Some y) vs ys ->
  forall (v : EqVector) (x : Q),
    v !! eq = Some x ->
    fold_left addEqVector vs v !! eq = Some (fold_left Qplus ys x).
Proof.
  induction 1 as [|w y vs ys Hw _ IH]; intros v x Hx; simpl.
  - exact Hx.
  - apply IH. unfold addEqVector. rewrite lookup_zip_with, Hx. simpl.
    rewrite Hw. reflexivity.
Qed.

(** The sum over the processes of the sums of their contributions is the
    sum of the contributions of all their elements. *)
Lemma fold_Qplus_processes (timeIdx : nat) (eq : nat)
    (rest : list (list Element * EqVector)) :
  forall (first : list Element),
    (fold_left Qplus
       (map (fun p : list Element * EqVector =>
               fold_left Qplus (storageContributions timeIdx (fst p) eq) 0)
            rest)
       (fold_left Qplus (storageContributions timeIdx first eq) 0)
     == fold_left Qplus
          (storageContributions timeIdx (first ++ concat (map fst rest)) eq) 0)%Q.
Proof.
  induction rest as [|p rest IH]; intros first; simpl.
  - rewrite app_nil_r. reflexivity.
  - rewrite app_assoc, <- (IH (first ++ fst p)).
    rewrite !(GeometryProperties.fold_Qplus_shift
                (map _ rest) (fold_left Qplus _ _)).
    rewrite storageContributions_app.
    rewrite (fold_Qplus_app (storageContributions timeIdx first eq)).
    rewrite (GeometryProperties.fold_Qplus_shift _ (_ + _)%Q).
    ring.
Qed.


(** X22.  Every process counts its interior elements only, and the sum over the
    processes adds the vectors entry by entry.  When the interior elements
    of the processes are together the interior elements of the whole grid,
    each once, the run on several processes gives the storage of the run on
    one process: no element is counted twice, unlike the border degrees of
    freedom in the norm of [globalResidual]. *)
Theorem globalStorage_partition (timeIdx : nat)
    (ps : list (list Element * EqVector))
    (whole : list Element) (storage : EqVector) (eqIdx : nat) :
  eqIdx < numEq ->
  ps <> [] ->
  Forall (fun p : list Element * EqVector => eqIdx < length (snd p)) ps ->
  eqIdx < length storage ->
  Permutation (List.filter interior (concat (map fst ps)))
              (List.filter interior whole) ->
  exists x y : Q,
    globalStorage timeIdx ps !! eqIdx = Some x
    /\ globalStorage timeIdx [(whole, storage)] !! eqIdx = Some y
    /\ (x == y)%Q.
Proof.
  intros Heq Hne Hall Hlen Hperm.
  destruct ps as [|p rest]; [congruence|]. clear Hne.
  apply Forall_cons in Hall as [Hp Hrest].
  exists (fold_left Qplus
            (map (fun p : list Element * EqVector =>
                    fold_left Qplus (storageContributions timeIdx (fst p) eqIdx) 0%Q)
                 rest)
            (fold_left Qplus (storageContributions timeIdx (fst p) eqIdx) 0%Q)),
         (fold_left Qplus (storageContributions timeIdx whole eqIdx) 0%Q).
  split; [|split].
  - unfold Storage.globalStorage. simpl.
    apply lookup_addEqVector_fold.
    + clear Hperm Hp. induction rest as [|q rest IH]; simpl; [constructor|].
      apply Forall_cons in Hrest as [Hq Hrest].
      constructor; [|exact (IH Hrest)].
      apply lookup_localStorage; assumption.
    + apply lookup_localStorage; assumption.
  - unfold Storage.globalStorage. simpl.
    apply lookup_localStorage; assumption.
  - rewrite fold_Qplus_processes.
    apply fold_Qplus_perm. unfold Storage.storageContributions.
    apply Permutation_flat_map. exact Hperm.
Qed.

End GlobalStorage.

Import Scenario Examples.

(** The theorem of X20 on the line: the middle vertex receives 20 in
    either order, with or without the ghost element. *)
Lemma assembleResidual_merge_order_line :
  0 < 1
  /\ is_Some (valueAt [[7%Q]; [7%Q]; [7%Q]] 1 0)
  /\ is_Some (valueAt [[0%Q]; [0%Q]; [0%Q]] 1 0)
  /\ Permutation
       (List.filter (fun elem => isInteriorEntity (elemPartition elem))
          [leftElement; rightElementGhost; rightElement])
       (List.filter (fun elem => isInteriorEntity (elemPartition elem))
          [rightElement; leftElement])
  /\ exists x y : Q,
       valueAt (meshAssembleResidual [leftElement; rightElementGhost; rightElement]
                  [[7%Q]; [7%Q]; [7%Q]]) 1 0 = Some x
       /\ valueAt (meshAssembleResidual [rightElement; leftElement]
                     [[0%Q]; [0%Q]; [0%Q]]) 1 0 = Some y
       /\ (x == y)%Q.
Proof.
  assert (H1 : 0 < 1) by lia.
  assert (H2 : is_Some (valueAt [[7%Q]; [7%Q]; [7%Q]] 1 0))
    by (eexists; reflexivity).
  assert (H3 : is_Some (valueAt [[0%Q]; [0%Q]; [0%Q]] 1 0))
    by (eexists; reflexivity).
  assert (H4 : Permutation
                 (List.filter (fun elem => isInteriorEntity (elemPartition elem))
                    [leftElement; rightElementGhost; rightElement])
                 (List.filter (fun elem => isInteriorEntity (elemPartition elem))
                    [rightElement; leftElement]))
    by (simpl; apply perm_swap).
  split; [exact H1|]. split; [exact H2|]. split; [exact H3|]. split; [exact H4|].
  exact (assembleResidual_merge_order elemPartition meshNumPrimaryDof
           meshGlobalSpaceIndex elemResidual 1
           [leftElement; rightElementGhost; rightElement]
           [rightElement; leftElement]
           [[7%Q]; [7%Q]; [7%Q]] [[0%Q]; [0%Q]; [0%Q]] 1 0 H1 H2 H3 H4).
Defined.


(** The theorem of X22 on the line split between two processes, each with
    a ghost copy of the element of the other: both runs store 29. *)
Lemma globalStorage_partition_line :
  0 < 1
  /\ [([leftElement; rightElementGhost], [0%Q]);
      ([leftElementGhost; rightElement], [7%Q])] <> []
  /\ Forall (fun p : list MeshElement * EqVector => 0 < length (snd p))
       [([leftElement; rightElementGhost], [0%Q]);
        ([leftElementGhost; rightElement], [7%Q])]
  /\ 0 < length [0%Q]
  /\ Permutation
       (List.filter (fun elem => isInteriorEntity (elemPartition elem))
          (concat (map fst [([leftElement; rightElementGhost], [0%Q]);
                            ([leftElementGhost; rightElement], [7%Q])])))
       (List.filter (fun elem => isInteriorEntity (elemPartition elem))
          [leftElement; rightElement])
  /\ meshGlobalStorage [([leftElement; rightElementGhost], [0%Q]);
                        ([leftElementGhost; rightElement], [7%Q])]
     = [(0 + 4 + 12) + (0 + 8 + 5)]%Q
  /\ exists x y : Q,
       meshGlobalStorage [([leftElement; rightElementGhost], [0%Q]);
                          ([leftElementGhost; rightElement], [7%Q])] !! 0 = Some x
       /\ meshGlobalStorage [([leftElement; rightElement], [0%Q])] !! 0 = Some y
       /\ (x == y)%Q.
Proof.
  assert (H1 : 0 < 1) by lia.
  assert (H2 : [([leftElement; rightElementGhost], [0%Q]);
                ([leftElementGhost; rightElement], [7%Q])] <> []) by discriminate.
  assert (H3 : Forall (fun p : list MeshElement * EqVector => 0 < length (snd p))
                 [([leftElement; rightElementGhost], [0%Q]);
                  ([leftElementGhost; rightElement], [7%Q])])
    by (repeat constructor).
  assert (H4 : 0 < length [0%Q]) by (simpl; lia).
  assert (H5 : Permutation
                 (List.filter (fun elem => isInteriorEntity (elemPartition elem))
                    (concat (map fst [([leftElement; rightElementGhost], [0%Q]);
                                      ([leftElementGhost; rightElement], [7%Q])])))
                 (List.filter (fun elem => isInteriorEntity (elemPartition elem))
                    [leftElement; rightElement]))
    by (simpl; apply Permutation_refl).
  split; [exact H1|]. split; [exact H2|]. split; [exact H3|]. split; [exact H4|].
  split; [exact H5|]. split; [reflexivity|].
  exact (globalStorage_partition elemPartition (fun _ => meshNumPrimaryDof)
           (fun _ => elemResidual) 1 0
           [([leftElement; rightElementGhost], [0%Q]);
            ([leftElementGhost; rightElement], [7%Q])]
           [leftElement; rightElement] [0%Q] 0 H1 H2 H3 H4 H5).
Defined.

End MergeProperties.
